(** * PrivateProfileRedirector: the redirected profile-string handlers

    A shallow embedding of [Source/Redirector/RedirectedFunctions.cpp]:
    the buffer marshaling helpers [StringLength] and [StringCopyBuffer],
    and the handlers [GetStringT], [GetIntT], [GetSectionNamesT],
    [GetSectionT] and [WriteStringT], followed by the properties of the
    specification that concern them.

    Conventions.
    - A [size_t] or [DWORD] is a [Z]; the places where the source can wrap
      around ([length - 1], [static_cast<DWORD>]) are written out.
    - A pointer is an [option]: [None] is [nullptr], [Some m] is the
      sequence of characters found at the pointer.  A C string ends at its
      first NUL character.  A caller's buffer has to hold at least the
      capacity it is passed with; the properties state this where they
      need it.
    - A handler takes the redirector and returns its result with the
      redirector it leaves behind.  The entry locks are not modelled: a
      handler runs from start to end on its own. *)

From Stdlib Require Import ZArith Lia.
From Stdlib Require Strings.Byte Strings.String.
From stdpp Require Import base list gmap strings.

Local Open Scope Z_scope.

(** ** Character widths *)

(** The handlers are templates over [TChar], instantiated at [char] and
    [wchar_t].  The code only ever compares a character with zero and
    stores zero. *)
Class TCharT (TChar : Type) := {
  tchar_eq_dec :: EqDecision TChar;
  tnul : TChar;
  tchar_equals_sign : TChar;
  sizeof_TChar : Z
}.

#[global] Instance byte_eq_dec : EqDecision Byte.byte := Byte.byte_eq_dec.

(** [char]: one byte. *)
#[global] Instance char_TCharT : TCharT Byte.byte :=
  {| tnul := Byte.x00; tchar_equals_sign := Byte.x3d; sizeof_TChar := 1 |}.

(** [wchar_t]: two bytes, low byte first. *)
Definition wchar_t : Type := Byte.byte * Byte.byte.

#[global] Instance wchar_t_TCharT : TCharT wchar_t :=
  {| tnul := (Byte.x00, Byte.x00);
     tchar_equals_sign := (Byte.x3d, Byte.x00);
     sizeof_TChar := 2 |}.

(** ** Result codes *)

Definition HRESULT := Z.
Definition S_OK : HRESULT := 0.
Definition STRSAFE_E_INSUFFICIENT_BUFFER : HRESULT := 0x8007007A.
Definition STRSAFE_E_INVALID_PARAMETER : HRESULT := 0x80070057.
Definition STRSAFE_MAX_CCH : Z := 2147483647.

Definition ERROR_FILE_NOT_FOUND : Z := 2.
Definition ERROR_INVALID_PARAMETER : Z := 87.
Definition ERROR_INSUFFICIENT_BUFFER : Z := 122.

(** [static_cast<DWORD>] of a [size_t]. *)
Definition to_DWORD (z : Z) : Z := z mod 2 ^ 32.

(** Subtraction on [size_t] (64 bits) and on [DWORD]. *)
Definition size_sub (a b : Z) : Z := (a - b) mod 2 ^ 64.
Definition dword_sub (a b : Z) : Z := (a - b) mod 2 ^ 32.

(** A [UINT] read back as an [INT]. *)
Definition to_INT (u : Z) : Z := if u <? 2 ^ 31 then u else u - 2 ^ 32.

(** [BOOL]. *)
Definition TRUE : Z := 1.
Definition FALSE : Z := 0.

(** ** Buffer marshaling *)

Section Marshaling.
Context {TChar : Type} `{!TCharT TChar}.

(** [std::memset(dst, 0, n * sizeof(TChar))]. *)
Definition memset_zero (dst : list TChar) (n : Z) : list TChar :=
  replicate (Z.to_nat n) tnul ++ drop (Z.to_nat n) dst.

(** [std::memcpy(dst, src, n * sizeof(TChar))]. *)
Definition memcpy (dst src : list TChar) (n : Z) : list TChar :=
  take (Z.to_nat n) src ++ drop (Z.to_nat n) dst.

(** [dst[i] = c]. *)
Definition store (dst : list TChar) (i : Z) (c : TChar) : list TChar :=
  <[Z.to_nat i := c]> dst.

(** [dst[i] == 0]. *)
Definition is_nul_at (dst : list TChar) (i : Z) : bool :=
  bool_decide (dst !! Z.to_nat i = Some tnul).

(** The characters of the C string at a pointer: those before the first
    NUL. *)
Fixpoint c_str (m : list TChar) : list TChar :=
  match m with
  | [] => []
  | c :: m' => if decide (c = tnul) then [] else c :: c_str m'
  end.

(** The loop of [StringLengthWorker] in strsafe.h:
    it advances [psz] and decrements [cchMax] while [cchMax] is not zero
    and the character at [psz] is not NUL; the result is the [cchMax]
    that is left.  Past the end of [psz] a NUL is read. *)
Fixpoint StringLengthWorker (psz : list TChar) (cchMax : nat) {struct cchMax}
  : nat :=
  match cchMax with
  | O => O
  | S k =>
      match psz with
      | [] => cchMax
      | c :: psz' =>
          if decide (c = tnul) then cchMax else StringLengthWorker psz' k
      end
  end.

(** [StringCchLengthA/W] of strsafe.h for a non-null [psz]: the length is
    0 whenever the call fails. *)
Definition StringCchLength (psz : list TChar) (cchMax : Z) : HRESULT * Z :=
  if (cchMax >? STRSAFE_MAX_CCH) then (STRSAFE_E_INVALID_PARAMETER, 0)
  else
    let left := Z.of_nat (StringLengthWorker psz (Z.to_nat cchMax)) in
    if left =? 0 then (STRSAFE_E_INVALID_PARAMETER, 0)
    else (S_OK, cchMax - left).

(** [StringLength(length, src, srcMaxSize)], returning the [HRESULT] and
    [length]. *)
Definition StringLength (src : option (list TChar)) (srcMaxSize : Z)
  : HRESULT * Z :=
  match src with
  | Some s => StringCchLength s srcMaxSize
  | None => (STRSAFE_E_INVALID_PARAMETER, 0)
  end.

(** [StringCopyBuffer(dst, dstSize, src, srcSize, &copiedSize)], returning
    the [HRESULT], [copiedSize] and the destination memory. *)
Definition StringCopyBuffer (dst : option (list TChar)) (dstSize : Z)
    (src : option (list TChar)) (srcSize : Z)
  : HRESULT * Z * option (list TChar) :=
  match dst, src with
  | Some d, Some s =>
      let d := memset_zero d dstSize in
      let copySize := Z.min dstSize srcSize in
      if copySize =? 0 then (S_OK, 0, Some d)
      else
        let d := memcpy d s copySize in
        if dstSize >? srcSize then
          (S_OK, copySize, Some (store d srcSize tnul))
        else if (dstSize =? srcSize) && is_nul_at d (dstSize - 1) then
          (S_OK, copySize, Some d)
        else
          (STRSAFE_E_INSUFFICIENT_BUFFER, copySize,
           Some (store d (copySize - 1) tnul))
  | _, _ => (STRSAFE_E_INVALID_PARAMETER, 0, dst)
  end.
End Marshaling.

Arguments StringCopyBuffer : simpl never.
Arguments StringCchLength : simpl never.

(** ** The INI document *)

Section INI.
Context {String : Type} `{!EqDecision String}.

(** Modelled from the spec: the document type of [INIWrapper], whose source
    is not part of the files at hand.  A document maps sections to an
    ordered key-value mapping. *)
Definition INIDoc : Type := list (String * list (String * String)).

Fixpoint assoc_find {V : Type} (k : String) (l : list (String * V))
  : option V :=
  match l with
  | [] => None
  | (k', v) :: l' => if decide (k' = k) then Some v else assoc_find k l'
  end.

Fixpoint assoc_remove {V : Type} (k : String) (l : list (String * V))
  : list (String * V) :=
  match l with
  | [] => []
  | (k', v) :: l' =>
      if decide (k' = k) then assoc_remove k l'
      else (k', v) :: assoc_remove k l'
  end.

(** Replaces the value in place when the key is there, else adds the key
    at the end. *)
Fixpoint assoc_set {V : Type} (k : String) (v : V) (l : list (String * V))
  : list (String * V) :=
  match l with
  | [] => [(k, v)]
  | (k', v') :: l' =>
      if decide (k' = k) then (k, v) :: l' else (k', v') :: assoc_set k v l'
  end.

(** Modelled from the spec: [INIWrapper::QueryValue], the value stored for
    (section, key) if there is one. *)
Definition QueryValue (section key : String) (ini : INIDoc)
  : option String :=
  match assoc_find section ini with
  | Some kvs => assoc_find key kvs
  | None => None
  end.

(** Modelled from the spec: [INIWrapper::SetValue], which sets
    (section, key) to the value and reports through [isSameData] that the
    value was the one already there, in which case nothing changes.
    Returns the success flag, [isSameData] and the document. *)
Definition SetValue (section key value : String) (ini : INIDoc)
  : bool * bool * INIDoc :=
  if decide (QueryValue section key ini = Some value) then (true, true, ini)
  else
    let kvs := default [] (assoc_find section ini) in
    (true, false, assoc_set section (assoc_set key value kvs) ini).

(** Modelled from the spec: [INIWrapper::DeleteKey], which deletes that
    single key and returns whether there was one to delete. *)
Definition DeleteKey (section key : String) (ini : INIDoc)
  : bool * INIDoc :=
  match assoc_find section ini with
  | Some kvs =>
      match assoc_find key kvs with
      | Some _ => (true, assoc_set section (assoc_remove key kvs) ini)
      | None => (false, ini)
      end
  | None => (false, ini)
  end.

(** Modelled from the spec: [INIWrapper::DeleteSection], which deletes the
    entire section and returns whether there was one to delete. *)
Definition DeleteSection (section : String) (ini : INIDoc)
  : bool * INIDoc :=
  match assoc_find section ini with
  | Some _ => (true, assoc_remove section ini)
  | None => (false, ini)
  end.

(** Modelled from the spec: [INIWrapper::GetSectionNames] and
    [INIWrapper::GetKeyNames], in document order. *)
Definition GetSectionNames (ini : INIDoc) : list String := ini.*1.

Definition GetKeyNames (section : String) (ini : INIDoc) : list String :=
  (default [] (assoc_find section ini)).*1.
End INI.

Arguments INIDoc String : clear implicits.

(** ** Double-null-terminated lists *)

Section ZSSTRZZ.
Context {TChar : Type} `{!TCharT TChar} {String : Type}.

(** The list text of whole items: each item followed by its NUL. *)
Definition ZSSTR (items : list (list TChar)) : list TChar :=
  concat ((λ item, item ++ [tnul]) <$> items).

(** The loop of [CreateZSSTRZZ].  [func item] is the text the callback
    appends for [item], or [None] when it answers [Discard]. *)
Fixpoint CreateZSSTRZZ_loop (func : String → option (list TChar))
    (items : list String) (maxSize : Z) (buffer : list TChar) (count : Z)
  : list TChar * bool * Z :=
  match items with
  | [] => (buffer, false, count)
  | item :: rest =>
      match func item with
      | None => CreateZSSTRZZ_loop func rest maxSize buffer count
      | Some text =>
          if Z.of_nat (length buffer) + Z.of_nat (length text) + 2 >? maxSize
          then (buffer, true, count)
          else CreateZSSTRZZ_loop func rest maxSize
                 (buffer ++ text ++ [tnul]) (count + 1)
      end
  end.

(** Modelled from the spec: [INIWrapper::CreateZSSTRZZ], whose source is
    not part of the files at hand.  It builds a double-null-terminated
    list (each item null-terminated, a final extra null after the last
    item) within the capacity [maxSize]; when adding the next item would
    overflow the capacity it stops, sets [truncated] and returns the list
    built so far with the count of the items in it. *)
Definition CreateZSSTRZZ (func : String → option (list TChar))
    (items : list String) (maxSize : Z) : list TChar * bool * Z :=
  let '(buffer, truncated, count) :=
    CreateZSSTRZZ_loop func items maxSize [] 0 in
  (buffer ++ [tnul], truncated, count).
End ZSSTRZZ.

(** ** Collaborators *)

(** What the handlers use and this translation unit does not define: the
    encoding conversions of [INIWrapper] at the width [TChar] (with the
    redirector's converter), the converting constructor of [kxf::String]
    from a [TChar] string, [kxf::String::ToInteger], path normalisation, the
    file system, and the original [WritePrivateProfileString] that
    [InvokeTarget] calls. *)
Class Collaborators (TChar String Disk : Type) := {
  EncodingTo : list TChar → String;
  EncodingFrom : String → list TChar;
  StringFromTChar : list TChar → String;
  ToInteger : String → option Z;
  NormalizePath : String → String;
  LoadDocument : Disk → String → option (INIDoc String);
  SaveDocument : Disk → String → INIDoc String → option Disk;
  InvokeTarget :
    option (list TChar) → option (list TChar) → option (list TChar) →
    option (list TChar) → Disk → Z * Disk
}.

(** ** The redirector and its cache entries *)

Section Redirector.
Context {TChar : Type} `{!TCharT TChar}.
Context {String : Type} `{Countable String}.
Context {Disk : Type} `{!Collaborators TChar String Disk}.

(** One cached file: [ConfigObject] ([INIObject] in the header). *)
Record ConfigObject := {
  m_INI : INIDoc String;
  m_Path : String;
  m_IsChanged : bool;
  m_ExistOnDisk : bool
}.

(** What a handler does outside the cache. *)
Inductive Event :=
| EvSaveFile (path : String) (saved : bool)
| EvInvokeTarget (appName keyName lpString lpFileName : option (list TChar)).

Record RedirectorInterface := {
  m_INIMap : gmap String ConfigObject;
  m_NativeWrite : bool;
  m_ShouldSaveOnWrite : bool;
  m_Disk : Disk;
  m_LastError : Z;
  m_Events : list Event
}.

Definition SetLastError (code : Z) (r : RedirectorInterface)
  : RedirectorInterface :=
  {| m_INIMap := m_INIMap r; m_NativeWrite := m_NativeWrite r;
     m_ShouldSaveOnWrite := m_ShouldSaveOnWrite r; m_Disk := m_Disk r;
     m_LastError := code; m_Events := m_Events r |}.

Definition set_INIMap (m : gmap String ConfigObject)
    (r : RedirectorInterface) : RedirectorInterface :=
  {| m_INIMap := m; m_NativeWrite := m_NativeWrite r;
     m_ShouldSaveOnWrite := m_ShouldSaveOnWrite r; m_Disk := m_Disk r;
     m_LastError := m_LastError r; m_Events := m_Events r |}.

(** The effect of a call that leaves the cache: the disk it leaves and
    the event, recorded after the earlier ones. *)
Definition outside (disk : Disk) (e : Event) (r : RedirectorInterface)
  : RedirectorInterface :=
  {| m_INIMap := m_INIMap r; m_NativeWrite := m_NativeWrite r;
     m_ShouldSaveOnWrite := m_ShouldSaveOnWrite r; m_Disk := disk;
     m_LastError := m_LastError r; m_Events := m_Events r ++ [e] |}.

Definition set_INI (ini : INIDoc String) (o : ConfigObject) : ConfigObject :=
  {| m_INI := ini; m_Path := m_Path o; m_IsChanged := m_IsChanged o;
     m_ExistOnDisk := m_ExistOnDisk o |}.

Definition set_IsChanged (b : bool) (o : ConfigObject) : ConfigObject :=
  {| m_INI := m_INI o; m_Path := m_Path o; m_IsChanged := b;
     m_ExistOnDisk := m_ExistOnDisk o |}.

(** Modelled from the spec: [ConfigObject::LoadFile], whose source is not
    part of the files at hand.  It reads and parses the file at the
    entry's path; on failure the document stays empty and the existence
    flag false, on success the flag is true. *)
Definition LoadFile (disk : Disk) (path : String) : ConfigObject :=
  match LoadDocument disk path with
  | Some ini =>
      {| m_INI := ini; m_Path := path; m_IsChanged := false;
         m_ExistOnDisk := true |}
  | None =>
      {| m_INI := []; m_Path := path; m_IsChanged := false;
         m_ExistOnDisk := false |}
  end.

(** Modelled from the spec: [ConfigObject::SaveFile], whose source is not
    part of the files at hand.  It serialises the document back to the
    path when the entry is dirty and either the save-on-write policy is
    active and the call comes from a write, or a flush asks for it; on
    success it clears the dirty flag, on failure the entry stays dirty. *)
Definition SaveFile (fromOnWrite : bool) (o : ConfigObject)
    (r : RedirectorInterface) : ConfigObject * RedirectorInterface :=
  if m_IsChanged o && (negb fromOnWrite || m_ShouldSaveOnWrite r) then
    match SaveDocument (m_Disk r) (m_Path o) (m_INI o) with
    | Some disk =>
        (set_IsChanged false o, outside disk (EvSaveFile (m_Path o) true) r)
    | None => (o, outside (m_Disk r) (EvSaveFile (m_Path o) false) r)
    end
  else (o, r).

(** Modelled from the spec: [ConfigObject::OnWrite], declared in the
    header and defined elsewhere.  A structural change marks the entry
    dirty and, if the save-on-write policy is enabled, triggers an
    immediate save. *)
Definition OnWrite (o : ConfigObject) (r : RedirectorInterface)
  : ConfigObject * RedirectorInterface :=
  SaveFile true (set_IsChanged true o) r.

(** Modelled from the spec: [RedirectorInterface::GetOrLoadFile], declared
    in the header and defined elsewhere.  It normalises the path and
    returns the existing entry if present, else constructs a new entry,
    which loads the file, and inserts it.  Returns the key of the entry,
    the entry and the redirector. *)
Definition GetOrLoadFile (path : String) (r : RedirectorInterface)
  : String * ConfigObject * RedirectorInterface :=
  let p := NormalizePath path in
  match m_INIMap r !! p with
  | Some o => (p, o, r)
  | None =>
      let o := LoadFile (m_Disk r) p in
      (p, o, set_INIMap (<[p := o]> (m_INIMap r)) r)
  end.

(** The entry is held by reference: what a handler did to it is what the
    map holds afterwards. *)
Definition put_entry (p : String) (o : ConfigObject)
    (r : RedirectorInterface) : RedirectorInterface :=
  set_INIMap (<[p := o]> (m_INIMap r)) r.

(** Modelled from the spec: [INIWrapper::GetSectionNamesZSSTRZZ] and
    [INIWrapper::GetKeyNamesZSSTRZZ], the double-null-terminated list of
    the names at the width [TChar]. *)
Definition GetSectionNamesZSSTRZZ (ini : INIDoc String) (maxSize : Z)
  : list TChar * bool * Z :=
  CreateZSSTRZZ (λ name, Some (EncodingFrom name)) (GetSectionNames ini)
    maxSize.

Definition GetKeyNamesZSSTRZZ (ini : INIDoc String) (section : String)
    (maxSize : Z) : list TChar * bool * Z :=
  CreateZSSTRZZ (λ name, Some (EncodingFrom name)) (GetKeyNames section ini)
    maxSize.
End Redirector.

Arguments ConfigObject String : clear implicits.
Arguments Event TChar String : clear implicits.
Arguments RedirectorInterface TChar String {_ _} Disk.

(** ** The redirected handlers *)

Section Handlers.
Context {TChar : Type} `{!TCharT TChar}.
Context {String : Type} `{Countable String}.
Context {Disk : Type} `{!Collaborators TChar String Disk}.

Local Abbreviation Redirector := (RedirectorInterface TChar String Disk).
Local Abbreviation LPCTSTR := (option (list TChar)).

Definition is_null (p : LPCTSTR) : bool :=
  match p with Some _ => false | None => true end.

(** The result of an enumeration: [length - 1], replaced by [nSize - 2]
    when the copy ran out of room or the list was truncated. *)
Definition enum_result (hr : HRESULT) (truncated : bool) (length nSize : Z)
  : Z :=
  let result := size_sub length 1 in
  if hr =? STRSAFE_E_INSUFFICIENT_BUFFER then dword_sub nSize 2
  else if truncated then dword_sub nSize 2
  else result.

(** [GetStringT]: the result, the memory at [lpReturnedString] and the
    redirector. *)
Definition GetStringT (appName keyName defaultValue : LPCTSTR)
    (lpReturnedString : LPCTSTR) (nSize : Z) (lpFileName : LPCTSTR)
    (r : Redirector) : Z * LPCTSTR * Redirector :=
  match lpFileName with
  | None => (0, lpReturnedString, SetLastError ERROR_FILE_NOT_FOUND r)
  | Some fileName =>
      if is_null lpReturnedString || (nSize <? 2) then
        (0, lpReturnedString, SetLastError ERROR_INSUFFICIENT_BUFFER r)
      else
        let '(_, configObject, r) :=
          GetOrLoadFile (EncodingTo (c_str fileName)) r in
        let ini := m_INI configObject in
        match appName with
        | None =>
            (* Enum all sections *)
            let '(sections, truncated, _) :=
              GetSectionNamesZSSTRZZ ini nSize in
            let length := Z.of_nat (length sections) in
            let '(hr, _, buffer) :=
              StringCopyBuffer lpReturnedString nSize (Some sections) length in
            (to_DWORD (enum_result hr truncated length nSize), buffer, r)
        | Some app =>
            match keyName with
            | None =>
                (* Enum all keys in the section *)
                let '(keys, truncated, _) :=
                  GetKeyNamesZSSTRZZ ini (EncodingTo (c_str app)) nSize in
                let length := Z.of_nat (length keys) in
                let '(hr, _, buffer) :=
                  StringCopyBuffer lpReturnedString nSize (Some keys) length in
                (to_DWORD (enum_result hr truncated length nSize), buffer, r)
            | Some key =>
                (* Get the value *)
                match QueryValue (EncodingTo (c_str app))
                        (EncodingTo (c_str key)) ini with
                | Some value =>
                    let valueRef := EncodingFrom value in
                    let length := Z.of_nat (length valueRef) in
                    let '(hr, _, buffer) :=
                      StringCopyBuffer lpReturnedString nSize
                        (Some valueRef) length in
                    let result :=
                      if hr =? STRSAFE_E_INSUFFICIENT_BUFFER
                      then dword_sub nSize 1 else length in
                    (to_DWORD result, buffer, r)
                | None =>
                    match defaultValue with
                    | Some _ =>
                        let '(_, length) := StringLength defaultValue nSize in
                        let '(hr, _, buffer) :=
                          StringCopyBuffer lpReturnedString nSize
                            defaultValue length in
                        let result :=
                          if hr =? STRSAFE_E_INSUFFICIENT_BUFFER
                          then dword_sub nSize 1 else length in
                        (to_DWORD result, buffer, r)
                    | None =>
                        let '(_, _, buffer) :=
                          StringCopyBuffer lpReturnedString nSize
                            (Some [tnul]) 1 in
                        (to_DWORD 0, buffer, r)
                    end
                end
            end
        end
  end.

(** The names an enumerating call of [GetStringT] lists: the sections for
    a null [appName], else the keys of that section. *)
Definition enumerated_names (appName : LPCTSTR) (ini : INIDoc String)
  : list String :=
  match appName with
  | None => GetSectionNames ini
  | Some app => GetKeyNames (EncodingTo (c_str app)) ini
  end.

(** [GetIntT]: the [UINT] result and the redirector. *)
Definition GetIntT (appName keyName : LPCTSTR) (defaultValue : Z)
    (lpFileName : LPCTSTR) (r : Redirector) : Z * Redirector :=
  match lpFileName with
  | None => (to_DWORD defaultValue, SetLastError ERROR_FILE_NOT_FOUND r)
  | Some fileName =>
      match appName, keyName with
      | Some app, Some key =>
          let '(_, configObject, r) :=
            GetOrLoadFile (EncodingTo (c_str fileName)) r in
          match QueryValue (EncodingTo (c_str app)) (EncodingTo (c_str key))
                  (m_INI configObject) with
          | Some value =>
              match ToInteger value with
              | Some intValue => (to_DWORD intValue, r)
              | None => (to_DWORD defaultValue, r)
              end
          | None => (to_DWORD defaultValue, r)
          end
      | _, _ =>
          (to_DWORD defaultValue, SetLastError ERROR_INVALID_PARAMETER r)
      end
  end.

(** [GetSectionNamesT]. *)
Definition GetSectionNamesT (lpszReturnBuffer : LPCTSTR) (nSize : Z)
    (lpFileName : LPCTSTR) (r : Redirector) : Z * LPCTSTR * Redirector :=
  GetStringT None None None lpszReturnBuffer nSize lpFileName r.

(** The callback of [GetSectionT]: [key=value] for a key that has a
    value, [Discard] for one that has none. *)
Definition key_value_pair (ini : INIDoc String) (sectionName : String)
    (keyName : String) : option (list TChar) :=
  match QueryValue sectionName keyName ini with
  | Some value =>
      Some (EncodingFrom keyName ++ [tchar_equals_sign] ++ EncodingFrom value)
  | None => None
  end.

(** [GetSectionT]. *)
Definition GetSectionT (appName : LPCTSTR) (lpReturnedString : LPCTSTR)
    (nSize : Z) (lpFileName : LPCTSTR) (r : Redirector)
  : Z * LPCTSTR * Redirector :=
  match lpFileName with
  | None => (0, lpReturnedString, SetLastError ERROR_FILE_NOT_FOUND r)
  | Some fileName =>
      match appName with
      | None => (0, lpReturnedString, SetLastError ERROR_INVALID_PARAMETER r)
      | Some app =>
          if is_null lpReturnedString || (nSize <? 2) then
            (0, lpReturnedString, SetLastError ERROR_INSUFFICIENT_BUFFER r)
          else
            let '(_, configObject, r) :=
              GetOrLoadFile (EncodingTo (c_str fileName)) r in
            let ini := m_INI configObject in
            let sectionName := EncodingTo (c_str app) in
            let '(keyValuePairs, truncated, _) :=
              CreateZSSTRZZ (key_value_pair ini sectionName)
                (GetKeyNames sectionName ini) nSize in
            let length := Z.of_nat (length keyValuePairs) in
            let '(hr, _, buffer) :=
              StringCopyBuffer lpReturnedString nSize (Some keyValuePairs)
                length in
            (to_DWORD (enum_result hr truncated length nSize), buffer, r)
      end
  end.

(** The lambda [WriteStringToMemoryFile] of [WriteStringT]. *)
Definition WriteStringToMemoryFile (appName keyName lpString : LPCTSTR)
    (lpFileName : LPCTSTR) (r : Redirector) : bool * Redirector :=
  match lpFileName with
  | None => (false, SetLastError ERROR_FILE_NOT_FOUND r)
  | Some fileName =>
      match appName with
      | None => (false, SetLastError ERROR_INVALID_PARAMETER r)
      | Some app =>
          let '(p, configObject, r) :=
            GetOrLoadFile (EncodingTo (c_str fileName)) r in
          let ini := m_INI configObject in
          match keyName with
          | None =>
              (* Delete section *)
              let '(deleted, ini) :=
                DeleteSection (EncodingTo (c_str app)) ini in
              let configObject := set_INI ini configObject in
              if deleted then
                let '(configObject, r) := OnWrite configObject r in
                (true, put_entry p configObject r)
              else (false, put_entry p configObject r)
          | Some key =>
              match lpString with
              | None =>
                  (* Delete value *)
                  let '(deleted, ini) :=
                    DeleteKey (EncodingTo (c_str app))
                      (EncodingTo (c_str key)) ini in
                  let configObject := set_INI ini configObject in
                  if deleted then
                    let '(configObject, r) := OnWrite configObject r in
                    (true, put_entry p configObject r)
                  else (false, put_entry p configObject r)
              | Some str =>
                  (* Set value *)
                  let '(ok, isSameData, ini) :=
                    SetValue (StringFromTChar (c_str app))
                      (StringFromTChar (c_str key))
                      (EncodingTo (c_str str)) ini in
                  let configObject := set_INI ini configObject in
                  if ok then
                    if isSameData then (true, put_entry p configObject r)
                    else
                      let '(configObject, r) := OnWrite configObject r in
                      (true, put_entry p configObject r)
                  else (false, put_entry p configObject r)
              end
          end
      end
  end.

(** [WriteStringT]: the [BOOL] result and the redirector. *)
Definition WriteStringT (appName keyName lpString : LPCTSTR)
    (lpFileName : LPCTSTR) (r : Redirector) : Z * Redirector :=
  let '(memoryWriteSuccess, r) :=
    WriteStringToMemoryFile appName keyName lpString lpFileName r in
  if m_NativeWrite r then
    let '(result, disk) :=
      InvokeTarget appName keyName lpString lpFileName (m_Disk r) in
    (result,
     outside disk (EvInvokeTarget appName keyName lpString lpFileName) r)
  else (if memoryWriteSuccess then TRUE else FALSE, r).
End Handlers.

Arguments GetStringT : simpl never.
Arguments GetSectionT : simpl never.
Arguments WriteStringToMemoryFile : simpl never.
Arguments WriteStringT : simpl never.
Arguments GetOrLoadFile : simpl never.

(** ** A platform to run the handlers on *)

Module Sample.

(** The files on disk, by path. *)
Definition Disk : Type := list (string * INIDoc string).

(** 8-bit characters with a converter that maps each byte to the character
    of the same code, paths taken as they are, saves that succeed, and an
    original [WritePrivateProfileStringA] that reports failure and writes
    nothing.  [ToInteger] reads a string of decimal digits. *)
Definition digit (c : Ascii.ascii) : option Z :=
  let n := Z.of_N (Ascii.N_of_ascii c) in
  if (48 <=? n) && (n <=? 57) then Some (n - 48) else None.

Fixpoint decimal (acc : Z) (s : string) : option Z :=
  match s with
  | String.EmptyString => Some acc
  | String.String c s' =>
      match digit c with
      | Some d => decimal (10 * acc + d) s'
      | None => None
      end
  end.

#[global] Instance sample_Collaborators
  : Collaborators Byte.byte string Disk :=
  {| EncodingTo := String.string_of_list_byte;
     EncodingFrom := String.list_byte_of_string;
     StringFromTChar := String.string_of_list_byte;
     ToInteger := λ s,
       match s with String.EmptyString => None | _ => decimal 0 s end;
     NormalizePath := id;
     LoadDocument := λ disk path, assoc_find path disk;
     SaveDocument := λ disk path ini, Some (assoc_set path ini disk);
     InvokeTarget := λ _ _ _ _ disk, (FALSE, disk) |}.

(** A C string argument. *)
Definition sz (s : string) : list Byte.byte := String.list_byte_of_string s.

(** A redirector that has cached nothing yet. *)
Definition fresh (nativeWrite saveOnWrite : bool) (disk : Disk)
  : RedirectorInterface Byte.byte string Disk :=
  {| m_INIMap := ∅; m_NativeWrite := nativeWrite;
     m_ShouldSaveOnWrite := saveOnWrite; m_Disk := disk;
     m_LastError := 0; m_Events := [] |}.

(** [game.ini] with one section of two keys. *)
Definition game_ini : INIDoc string :=
  [("Display", [("Width", "1920"); ("Mode", "full")])]%string.

Definition disk : Disk := [("game.ini"%string, game_ini)].

(** A document whose value for [Tag] is [a] followed by a NUL character. *)
Definition nul_ini : INIDoc string :=
  [("S"%string,
    [("Tag"%string,
      String.string_of_list_byte [Byte.x61; Byte.x00])])].

Definition nul_disk : Disk := [("nul.ini"%string, nul_ini)].

(** A caller buffer of [n] characters, filled with [0xCC]. *)
Definition stale (n : nat) : list Byte.byte := replicate n Byte.xcc.

(** The redirector before its first call, with save-on-write, and after
    [game.ini] has been loaded. *)
Definition cold : RedirectorInterface Byte.byte string Disk :=
  fresh false true disk.

Definition game_entry : ConfigObject string :=
  {| m_INI := game_ini; m_Path := "game.ini"; m_IsChanged := false;
     m_ExistOnDisk := true |}.

Definition warm : RedirectorInterface Byte.byte string Disk :=
  put_entry "game.ini"%string game_entry cold.

(** The same with the [NativeWrite] option. *)
Definition native : RedirectorInterface Byte.byte string Disk :=
  fresh true false disk.

End Sample.

(** ** A platform with a 7-bit converter *)

Module SevenBit.

(** The converter reads every byte above [0x7F] as a question mark, the
    replacement character, where the constructor of [kxf::String] takes
    each byte as the character of the same code; the original
    [WritePrivateProfileStringA] reports success and writes nothing.  The
    rest is as on the sample platform. *)
Definition replace_high (b : Byte.byte) : Byte.byte :=
  if (Byte.to_N b <? 128)%N then b else Byte.x3f.

Definition collaborators
  : Collaborators Byte.byte string Sample.Disk :=
  {| EncodingTo := λ s, String.string_of_list_byte (replace_high <$> s);
     EncodingFrom := String.list_byte_of_string;
     StringFromTChar := String.string_of_list_byte;
     ToInteger := ToInteger (Collaborators := Sample.sample_Collaborators);
     NormalizePath := id;
     LoadDocument := λ disk path, assoc_find path disk;
     SaveDocument := λ disk path ini, Some (assoc_set path ini disk);
     InvokeTarget := λ _ _ _ _ disk, (TRUE, disk) |}.

End SevenBit.

(** * Properties *)

Local Coercion Z.of_nat : nat >-> Z.

Section MarshalingFacts.
Context {TChar : Type} `{!TCharT TChar}.
Implicit Types d s : list TChar.

(** The memory after the zero-fill and the copy of [k] characters, for
    [k] within both the capacity and the source. *)
Lemma memcpy_memset_zero d s n k :
  0 ≤ k ≤ n → k ≤ length s →
  memcpy (memset_zero d n) s k
  = take (Z.to_nat k) s ++ replicate (Z.to_nat (n - k)) tnul
      ++ drop (Z.to_nat n) d.
Proof.
  intros Hk Hs. unfold memcpy, memset_zero. f_equal.
  rewrite drop_app_le by (rewrite length_replicate; lia).
  rewrite drop_replicate. do 2 f_equal. lia.
Qed.

Lemma store_past_copy s k m (rest : list TChar) :
  0 ≤ k ≤ length s → 0 < m →
  store (take (Z.to_nat k) s ++ replicate (Z.to_nat m) tnul ++ rest) k tnul
  = take (Z.to_nat k) s ++ replicate (Z.to_nat m) tnul ++ rest.
Proof.
  intros Hk Hm. unfold store.
  apply list_insert_id.
  rewrite lookup_app_r by (rewrite length_take; lia).
  rewrite length_take, Nat.min_l by lia.
  rewrite Nat.sub_diag.
  destruct (Z.to_nat m) as [|m'] eqn:E; [lia|]. reflexivity.
Qed.

Lemma store_last_copied s k (rest : list TChar) :
  0 < k ≤ length s →
  store (take (Z.to_nat k) s ++ rest) (k - 1) tnul
  = take (Z.to_nat (k - 1)) s ++ [tnul] ++ rest.
Proof.
  intros Hk. unfold store.
  replace (Z.to_nat k) with (S (Z.to_nat (k - 1))) by lia.
  destruct (lookup_lt_is_Some_2 s (Z.to_nat (k - 1))) as [c Hc]; [lia|].
  rewrite (take_S_r _ _ _ Hc), <- app_assoc.
  rewrite insert_app_r_alt by (rewrite length_take; lia).
  rewrite length_take, Nat.min_l by lia.
  rewrite Nat.sub_diag. reflexivity.
Qed.

Lemma StringCopyBuffer_null_dst dstSize (src : option (list TChar)) srcSize :
  StringCopyBuffer None dstSize src srcSize
  = (STRSAFE_E_INVALID_PARAMETER, 0, None).
Proof. reflexivity. Qed.

Lemma StringCopyBuffer_null_src (dst : option (list TChar)) dstSize srcSize :
  StringCopyBuffer dst dstSize None srcSize
  = (STRSAFE_E_INVALID_PARAMETER, 0, dst).
Proof. by destruct dst. Qed.

(** The four outcomes of a copy between valid buffers, by the memory it
    leaves. *)
Lemma StringCopyBuffer_cases d s dstSize srcSize :
  0 ≤ dstSize ≤ length d → 0 ≤ srcSize ≤ length s →
  let rest := drop (Z.to_nat dstSize) d in
  StringCopyBuffer (Some d) dstSize (Some s) srcSize =
    if Z.min dstSize srcSize =? 0 then
      (S_OK, 0, Some (replicate (Z.to_nat dstSize) tnul ++ rest))
    else if dstSize >? srcSize then
      (S_OK, srcSize,
       Some (take (Z.to_nat srcSize) s
             ++ replicate (Z.to_nat (dstSize - srcSize)) tnul ++ rest))
    else if (dstSize =? srcSize)
            && bool_decide (s !! Z.to_nat (srcSize - 1) = Some tnul) then
      (S_OK, dstSize, Some (take (Z.to_nat srcSize) s ++ rest))
    else
      (STRSAFE_E_INSUFFICIENT_BUFFER, dstSize,
       Some (take (Z.to_nat (dstSize - 1)) s ++ [tnul] ++ rest)).
Proof.
  intros Hd Hs rest. subst rest. unfold StringCopyBuffer.
  destruct (Z.eqb_spec (Z.min dstSize srcSize) 0) as [E0|E0]; [done|].
  rewrite memcpy_memset_zero by lia.
  destruct (Z.gtb_spec dstSize srcSize) as [Hgt|Hle].
  - rewrite Z.min_r by lia.
    rewrite store_past_copy by lia. done.
  - rewrite Z.min_l by lia.
    replace (Z.to_nat (dstSize - dstSize)) with 0%nat by lia. simpl.
    assert (Hat : is_nul_at (take (Z.to_nat dstSize) s ++ drop (Z.to_nat dstSize) d) (dstSize - 1)
                  = bool_decide (s !! Z.to_nat (dstSize - 1) = Some tnul)).
    { unfold is_nul_at.
      rewrite lookup_app_l by (rewrite length_take; lia).
      rewrite lookup_take_lt by lia. done. }
    rewrite Hat.
    destruct (Z.eqb_spec dstSize srcSize) as [->|Hne]; simpl.
    + destruct (bool_decide _); [done|].
      rewrite store_last_copied by lia. done.
    + rewrite store_last_copied by lia. done.
Qed.
(** Room to spare: the first [k] characters of the source, then zeros up
    to the capacity. *)
Lemma StringCopyBuffer_room d s dstSize k :
  0 ≤ k ≤ length s → k < dstSize ≤ length d →
  StringCopyBuffer (Some d) dstSize (Some s) k
  = (S_OK, k,
     Some (take (Z.to_nat k) s ++ replicate (Z.to_nat (dstSize - k)) tnul
           ++ drop (Z.to_nat dstSize) d)).
Proof.
  intros Hk Hd. rewrite StringCopyBuffer_cases by lia.
  destruct (Z.eqb_spec (Z.min dstSize k) 0) as [E0|E0].
  - assert (k = 0) as -> by lia. by rewrite Z.sub_0_r.
  - destruct (Z.gtb_spec dstSize k); [done|lia].
Qed.

(** No room to spare: the first [dstSize - 1] characters of the source and
    a zero, whichever of the last two branches is taken. *)
Lemma StringCopyBuffer_full d s dstSize srcSize :
  0 < dstSize ≤ length d → dstSize ≤ srcSize ≤ length s →
  ∃ hr,
    StringCopyBuffer (Some d) dstSize (Some s) srcSize
    = (hr, dstSize,
       Some (take (Z.to_nat (dstSize - 1)) s ++ [tnul]
             ++ drop (Z.to_nat dstSize) d)) ∧
    hr = if bool_decide (dstSize = srcSize
                         ∧ s !! Z.to_nat (srcSize - 1) = Some tnul)
         then S_OK else STRSAFE_E_INSUFFICIENT_BUFFER.
Proof.
  intros Hd Hs. rewrite StringCopyBuffer_cases by lia.
  destruct (Z.eqb_spec (Z.min dstSize srcSize) 0) as [E0|E0]; [lia|].
  destruct (Z.gtb_spec dstSize srcSize); [lia|].
  destruct (Z.eqb_spec dstSize srcSize) as [Heq|Hne]; simpl.
  - subst srcSize. case_bool_decide as Hlast.
    + rewrite bool_decide_eq_true_2 by done.
      eexists. split; [|done]. do 2 f_equal.
      replace (Z.to_nat dstSize) with (S (Z.to_nat (dstSize - 1))) at 1 by lia.
      by rewrite (take_S_r _ _ _ Hlast), <- app_assoc.
    + rewrite bool_decide_eq_false_2 by tauto. eauto.
  - rewrite bool_decide_eq_false_2 by tauto. eauto.
Qed.
(** A source that ends in NUL and is no longer than the capacity is copied
    whole, with or without room to spare. *)
Lemma StringCopyBuffer_terminated d s dstSize :
  Z.of_nat (length s) + 1 ≤ dstSize ≤ length d →
  StringCopyBuffer (Some d) dstSize (Some (s ++ [tnul]))
    (Z.of_nat (length (s ++ [tnul])))
  = (S_OK, Z.of_nat (length (s ++ [tnul])),
     Some ((s ++ [tnul])
           ++ replicate (Z.to_nat (dstSize - length (s ++ [tnul]))) tnul
           ++ drop (Z.to_nat dstSize) d)).
Proof.
  intros Hd. rewrite length_app. simpl.
  destruct (Z.lt_ge_cases (Z.of_nat (length s + 1)) dstSize) as [Hlt|Hge].
  - rewrite StringCopyBuffer_room by (rewrite ?length_app; simpl; lia).
    rewrite Nat2Z.id, <- (length_app s [tnul]), firstn_all. done.
  - assert (dstSize = Z.of_nat (length s + 1)) as -> by lia.
    rewrite StringCopyBuffer_cases by (rewrite ?length_app; simpl; lia).
    destruct (Z.eqb_spec (Z.min (length s + 1)%nat (length s + 1)%nat) 0);
      [lia|].
    destruct (Z.gtb_spec (length s + 1)%nat (length s + 1)%nat); [lia|].
    rewrite Z.eqb_refl, bool_decide_eq_true_2.
    + simpl. rewrite Nat2Z.id, <- (length_app s [tnul]), firstn_all.
      replace (Z.to_nat _) with 0%nat by lia. done.
    + rewrite lookup_app_r by lia.
      by replace (_ - _)%nat with 0%nat by lia.
Qed.
End MarshalingFacts.

(** C1.  [StringCopyBuffer], at either character width: a null destination
    or source gives [STRSAFE_E_INVALID_PARAMETER]; otherwise the whole
    capacity is zero-filled, [n = min dstSize srcSize] characters are
    copied, and: with [n = 0] the call succeeds with copied count 0; with
    room to spare a zero follows the copied source and the call succeeds;
    with an exact fit whose last character is zero the call succeeds;
    otherwise the last writable character becomes zero and the call gives
    [STRSAFE_E_INSUFFICIENT_BUFFER].  Nothing past the capacity changes. *)
Theorem StringCopyBuffer_three_way_branch
    {TChar : Type} `{!TCharT TChar} (d s : list TChar) (dstSize srcSize : Z)
    (Hdst : 0 ≤ dstSize ≤ length d) (Hsrc : 0 ≤ srcSize ≤ length s) :
  let n := Z.min dstSize srcSize in
  let exact_fit :=
    dstSize = srcSize ∧ s !! Z.to_nat (srcSize - 1) = Some tnul in
  (∀ p, StringCopyBuffer None dstSize p srcSize
        = (STRSAFE_E_INVALID_PARAMETER, 0, None)) ∧
  (∀ p, StringCopyBuffer p dstSize None srcSize
        = (STRSAFE_E_INVALID_PARAMETER, 0, p)) ∧
  ∃ hr d',
    StringCopyBuffer (Some d) dstSize (Some s) srcSize = (hr, n, Some d') ∧
    length d' = length d ∧
    drop (Z.to_nat dstSize) d' = drop (Z.to_nat dstSize) d ∧
    (n = 0 →
     hr = S_OK ∧
     take (Z.to_nat dstSize) d' = replicate (Z.to_nat dstSize) tnul) ∧
    (n ≠ 0 → dstSize > srcSize →
     hr = S_OK ∧
     take (Z.to_nat dstSize) d'
     = take (Z.to_nat srcSize) s
         ++ [tnul] ++ replicate (Z.to_nat (dstSize - srcSize - 1)) tnul) ∧
    (n ≠ 0 → exact_fit →
     hr = S_OK ∧ take (Z.to_nat dstSize) d' = take (Z.to_nat srcSize) s) ∧
    (n ≠ 0 → dstSize ≤ srcSize → ¬ exact_fit →
     hr = STRSAFE_E_INSUFFICIENT_BUFFER ∧
     take (Z.to_nat dstSize) d' = take (Z.to_nat (dstSize - 1)) s ++ [tnul]).
Proof.
  intros n exact_fit. subst n exact_fit.
  split; [intros p; apply StringCopyBuffer_null_dst|].
  split; [intros p; apply StringCopyBuffer_null_src|].
  rewrite StringCopyBuffer_cases by done.
  destruct (Z.eqb_spec (Z.min dstSize srcSize) 0) as [E0|E0].
  { eexists _, _. split; [by rewrite E0|].
    rewrite length_app, length_replicate, length_drop.
    rewrite drop_app_length' by (rewrite length_replicate; lia).
    rewrite take_app_length' by (rewrite length_replicate; lia).
    repeat split; try done; lia. }
  destruct (Z.gtb_spec dstSize srcSize) as [Hgt|Hle].
  { eexists _, _. split; [by rewrite Z.min_r by lia|].
    rewrite !length_app, length_take, length_replicate, length_drop.
    rewrite app_assoc.
    rewrite drop_app_length'
      by (rewrite length_app, length_take, length_replicate; lia).
    rewrite take_app_length'
      by (rewrite length_app, length_take, length_replicate; lia).
    repeat split; try done; try lia.
    replace (Z.to_nat (dstSize - srcSize))
      with (S (Z.to_nat (dstSize - srcSize - 1))) by lia.
    done. }
  destruct (Z.eqb_spec dstSize srcSize) as [Heq|Hne]; simpl.
  - subst srcSize. case_bool_decide as Hlast.
    + eexists _, _. split; [by rewrite Z.min_l by lia|].
      rewrite length_app, length_take, length_drop.
      rewrite drop_app_length' by (rewrite length_take; lia).
      rewrite take_app_length' by (rewrite length_take; lia).
      repeat split; try done; try lia; exfalso; tauto.
    + eexists _, _. split; [by rewrite Z.min_l by lia|].
      rewrite cons_middle, app_assoc.
      rewrite !length_app, length_take, length_drop. simpl.
      rewrite drop_app_length'
        by (rewrite length_app, length_take; simpl; lia).
      rewrite take_app_length'
        by (rewrite length_app, length_take; simpl; lia).
      repeat split; try done; try lia; exfalso; tauto.
  - eexists _, _. split; [by rewrite Z.min_l by lia|].
    rewrite cons_middle, app_assoc.
    rewrite !length_app, length_take, length_drop. simpl.
    rewrite drop_app_length'
      by (rewrite length_app, length_take; simpl; lia).
    rewrite take_app_length'
      by (rewrite length_app, length_take; simpl; lia).
    repeat split; try done; try lia; exfalso; tauto.
Qed.

Section LengthFacts.
Context {TChar : Type} `{!TCharT TChar}.
Implicit Types psz : list TChar.

Lemma c_str_length_le psz : (length (c_str psz) ≤ length psz)%nat.
Proof.
  induction psz as [|c psz IH]; simpl; [lia|].
  case_decide; simpl; lia.
Qed.

Lemma c_str_prefix psz : take (length (c_str psz)) psz = c_str psz.
Proof.
  induction psz as [|c psz IH]; simpl; [done|].
  case_decide; simpl; [done|]. by rewrite IH.
Qed.

(** The scan stops with [cchMax] used up exactly when the string does not
    end within [cchMax] characters. *)
Lemma StringLengthWorker_spec psz (cchMax : nat) :
  StringLengthWorker psz cchMax
  = if decide (length (c_str psz) < cchMax)%nat
    then (cchMax - length (c_str psz))%nat else 0%nat.
Proof.
  revert psz. induction cchMax as [|k IH]; intros psz;
    cbn [StringLengthWorker].
  { case_decide; lia. }
  destruct psz as [|c psz]; cbn [c_str length].
  { case_decide; lia. }
  destruct (decide (c = tnul)); cbn [length].
  { case_decide; lia. }
  rewrite IH. repeat case_decide; lia.
Qed.

Lemma StringCchLength_spec psz cchMax :
  0 ≤ cchMax →
  StringCchLength psz cchMax
  = if decide (length (c_str psz) < cchMax ≤ STRSAFE_MAX_CCH)
    then (S_OK, Z.of_nat (length (c_str psz)))
    else (STRSAFE_E_INVALID_PARAMETER, 0).
Proof.
  intros Hmax. unfold StringCchLength.
  destruct (Z.gtb_spec cchMax STRSAFE_MAX_CCH) as [Hgt|Hle].
  { case_decide; [lia|done]. }
  rewrite StringLengthWorker_spec.
  destruct (decide (length (c_str psz) < Z.to_nat cchMax)%nat) as [Hlt|Hge].
  - destruct (Z.eqb_spec (Z.of_nat (Z.to_nat cchMax - length (c_str psz))) 0);
      [lia|].
    case_decide; [|lia]. f_equal. lia.
  - simpl. case_decide; [lia|done].
Qed.
End LengthFacts.

Section HandlerFacts.
Context {TChar : Type} `{!TCharT TChar}.
Context {String : Type} `{Countable String}.
Context {Disk : Type} `{!Collaborators TChar String Disk}.

Local Abbreviation Redirector := (RedirectorInterface TChar String Disk).
Implicit Types (r : Redirector) (o : ConfigObject String).
Implicit Types (buf file app key : list TChar).

Lemma GetOrLoadFile_cached path r o :
  m_INIMap r !! NormalizePath path = Some o →
  GetOrLoadFile path r = (NormalizePath path, o, r).
Proof. intros Ho. unfold GetOrLoadFile. by rewrite Ho. Qed.

(** The entry [GetOrLoadFile] returns is the one the map holds afterwards
    under the normalised path; nothing else of the redirector changes. *)
Lemma GetOrLoadFile_entry path r p o r' :
  GetOrLoadFile path r = (p, o, r') →
  p = NormalizePath path ∧ m_INIMap r' !! p = Some o ∧
  (∀ q, q ≠ p → m_INIMap r' !! q = m_INIMap r !! q) ∧
  m_NativeWrite r' = m_NativeWrite r ∧
  m_ShouldSaveOnWrite r' = m_ShouldSaveOnWrite r ∧
  m_Disk r' = m_Disk r ∧ m_LastError r' = m_LastError r ∧
  m_Events r' = m_Events r.
Proof.
  unfold GetOrLoadFile.
  destruct (m_INIMap r !! NormalizePath path) as [o0|] eqn:E;
    intros [= <- <- <-]; simpl.
  - done.
  - rewrite lookup_insert_eq. repeat split; try done.
    intros q Hq. by rewrite lookup_insert_ne.
Qed.

Lemma put_entry_same p o r :
  m_INIMap r !! p = Some o → put_entry p o r = r.
Proof.
  intros Ho. unfold put_entry, set_INIMap. rewrite insert_id by done.
  by destruct r.
Qed.

(** [GetStringT] where the value is found. *)
Lemma GetStringT_found app key def buf nSize file r p o r' value :
  2 ≤ nSize →
  GetOrLoadFile (EncodingTo (c_str file)) r = (p, o, r') →
  QueryValue (EncodingTo (c_str app)) (EncodingTo (c_str key)) (m_INI o)
  = Some value →
  GetStringT (Some app) (Some key) def (Some buf) nSize (Some file) r
  = let valueRef := EncodingFrom value in
    let '(hr, _, buffer) :=
      StringCopyBuffer (Some buf) nSize (Some valueRef)
        (Z.of_nat (length valueRef)) in
    (to_DWORD (if hr =? STRSAFE_E_INSUFFICIENT_BUFFER
               then dword_sub nSize 1 else Z.of_nat (length valueRef)),
     buffer, r').
Proof.
  intros Hsize Hentry Hvalue. unfold GetStringT. simpl.
  destruct (Z.ltb_spec nSize 2) as [?|_]; [lia|].
  rewrite Hentry, Hvalue. done.
Qed.

(** [GetStringT] where the value is not found and a default is given. *)
Lemma GetStringT_default app key dflt buf nSize file r p o r' :
  2 ≤ nSize →
  GetOrLoadFile (EncodingTo (c_str file)) r = (p, o, r') →
  QueryValue (EncodingTo (c_str app)) (EncodingTo (c_str key)) (m_INI o)
  = None →
  GetStringT (Some app) (Some key) (Some dflt) (Some buf) nSize (Some file) r
  = let '(_, length) := StringCchLength dflt nSize in
    let '(hr, _, buffer) :=
      StringCopyBuffer (Some buf) nSize (Some dflt) length in
    (to_DWORD (if hr =? STRSAFE_E_INSUFFICIENT_BUFFER
               then dword_sub nSize 1 else length),
     buffer, r').
Proof.
  intros Hsize Hentry Hvalue. unfold GetStringT. simpl.
  destruct (Z.ltb_spec nSize 2) as [?|_]; [lia|].
  rewrite Hentry, Hvalue. done.
Qed.

Lemma to_DWORD_small z : 0 ≤ z < 2 ^ 32 → to_DWORD z = z.
Proof. intros Hz. unfold to_DWORD. by rewrite Z.mod_small. Qed.

Lemma dword_sub_small a b : 0 ≤ b ≤ a → a < 2 ^ 32 → dword_sub a b = a - b.
Proof. intros Hb Ha. unfold dword_sub. rewrite Z.mod_small; lia. Qed.

Lemma size_sub_small a b : 0 ≤ b ≤ a → a < 2 ^ 64 → size_sub a b = a - b.
Proof. intros Hb Ha. unfold size_sub. rewrite Z.mod_small; lia. Qed.

(** A read of an existing value, whatever its characters: with the value's
    length [L < nSize] the call returns [L] and the buffer holds the value
    and its NUL; with [L ≥ nSize] the buffer holds the first [nSize - 1]
    characters of the value and a zero at index [nSize - 1], and the call
    returns [nSize - 1] unless [L = nSize] and the value's last character
    is itself zero, where the copy succeeds and the call returns [L]. *)
Lemma GetStringT_value_truncation
    app key def buf nSize file r p o r' value
    (Hsize : 2 ≤ nSize < 2 ^ 32) (Hbuf : nSize ≤ length buf)
    (Hentry : GetOrLoadFile (EncodingTo (c_str file)) r = (p, o, r'))
    (Hvalue :
       QueryValue (EncodingTo (c_str app)) (EncodingTo (c_str key)) (m_INI o)
       = Some value) :
  let v := EncodingFrom value in
  let L := Z.of_nat (length v) in
  let exact_fit := L = nSize ∧ v !! Z.to_nat (L - 1) = Some tnul in
  ∃ result buffer,
    GetStringT (Some app) (Some key) def (Some buf) nSize (Some file) r
    = (result, Some buffer, r') ∧
    (L < nSize →
     result = L ∧ take (Z.to_nat (L + 1)) buffer = v ++ [tnul]) ∧
    (nSize ≤ L →
     take (Z.to_nat nSize) buffer
     = take (Z.to_nat (nSize - 1)) v ++ [tnul]) ∧
    (nSize ≤ L → ¬ exact_fit → result = nSize - 1) ∧
    (exact_fit → result = L).
Proof.
  intros v L exact_fit. subst exact_fit.
  rewrite (GetStringT_found _ _ _ _ _ _ _ _ _ _ value (proj1 Hsize) Hentry)
    by done.
  cbv zeta. fold v. fold L.
  destruct (Z.lt_ge_cases L nSize) as [Hlt|Hge].
  - rewrite StringCopyBuffer_room by (subst L; lia).
    assert ((S_OK =? STRSAFE_E_INSUFFICIENT_BUFFER) = false) as -> by done.
    rewrite to_DWORD_small by (subst L; lia).
    eexists _, _. split; [done|].
    split; [|repeat split; intros; lia].
    intros _. split; [done|].
    subst L. rewrite Nat2Z.id, firstn_all.
    replace (Z.to_nat (nSize - length v))
      with (S (Z.to_nat (nSize - length v - 1))) by lia.
    simpl. rewrite cons_middle, app_assoc.
    apply take_app_length'. rewrite length_app. simpl. lia.
  - destruct (StringCopyBuffer_full buf v nSize L) as (hr & -> & Hhr);
      [lia|subst L; lia|].
    eexists _, _. split; [done|]. split; [intros; lia|].
    split.
    { intros _. rewrite app_assoc. apply take_app_length'.
      rewrite length_app, length_take. subst L. simpl. lia. }
    subst hr. case_bool_decide as Hfit0.
    + destruct Hfit0 as [Hfit Hlast].
      assert ((S_OK =? STRSAFE_E_INSUFFICIENT_BUFFER) = false) as -> by done.
      rewrite to_DWORD_small by lia.
      split; [intros _ Hno; destruct Hno; by split|done].
    + rewrite Z.eqb_refl, dword_sub_small, to_DWORD_small by lia.
      split; [done|]. intros [Hfit Hlast]. destruct Hfit0. by split.
Qed.

(** C2.  A read of an existing value through [GetStringT] with a file path,
    a buffer and a capacity [2 ≤ nSize], the stored value being text, which
    holds no NUL character: with the value's length [L < nSize] the call
    returns [L] and the buffer holds the whole value and its NUL; with
    [L ≥ nSize] the call returns [nSize - 1] and the buffer holds the first
    [nSize - 1] characters of the value and a zero at index [nSize - 1]. *)
Theorem GetStringT_stored_value
    app key def buf nSize file r p o r' value
    (Hsize : 2 ≤ nSize < 2 ^ 32) (Hbuf : nSize ≤ length buf)
    (Hentry : GetOrLoadFile (EncodingTo (c_str file)) r = (p, o, r'))
    (Hvalue :
       QueryValue (EncodingTo (c_str app)) (EncodingTo (c_str key)) (m_INI o)
       = Some value)
    (Htext : tnul ∉ EncodingFrom value) :
  let v := EncodingFrom value in
  let L := Z.of_nat (length v) in
  ∃ result buffer,
    GetStringT (Some app) (Some key) def (Some buf) nSize (Some file) r
    = (result, Some buffer, r') ∧
    (L < nSize →
     result = L ∧ take (Z.to_nat (L + 1)) buffer = v ++ [tnul]) ∧
    (nSize ≤ L →
     result = nSize - 1 ∧
     take (Z.to_nat nSize) buffer
     = take (Z.to_nat (nSize - 1)) v ++ [tnul]).
Proof.
  intros v L.
  destruct (GetStringT_value_truncation app key def buf nSize file r p o r'
              value Hsize Hbuf Hentry Hvalue)
    as (result & buffer & Hcall & Hshort & Hprefix & Hresult & _).
  exists result, buffer. split; [exact Hcall|]. split; [exact Hshort|].
  intros Hlong. split; [|by apply Hprefix].
  apply Hresult; [done|]. intros [_ Hlast].
  apply Htext. by apply list_elem_of_lookup_2 in Hlast.
Qed.
End HandlerFacts.

Section EnumerationFacts.
Context {TChar : Type} `{!TCharT TChar} {String : Type}.
Variable f : String → list TChar.

Lemma ZSSTR_cons (item : list TChar) items :
  ZSSTR (item :: items) = (item ++ [tnul]) ++ ZSSTR items.
Proof. reflexivity. Qed.

(** The loop takes the longest prefix of the items that fits with the
    final NUL, and reports truncation exactly when an item is left. *)
Lemma CreateZSSTRZZ_loop_spec names maxSize (buffer : list TChar) count :
  ∃ k : nat,
    CreateZSSTRZZ_loop (λ name, Some (f name)) names maxSize buffer count
    = (buffer ++ ZSSTR (f <$> take k names),
       bool_decide (k < length names)%nat, count + k) ∧
    (k ≤ length names)%nat ∧
    (0 < k →
     Z.of_nat (length (buffer ++ ZSSTR (f <$> take k names))) + 1 ≤ maxSize) ∧
    (∀ name, names !! k = Some name →
     Z.of_nat (length (buffer ++ ZSSTR (f <$> take k names)))
       + Z.of_nat (length (f name ++ [tnul])) + 1 > maxSize).
Proof.
  revert buffer count.
  induction names as [|name names IH]; intros buffer count; simpl.
  { exists 0%nat. simpl. rewrite app_nil_r, Z.add_0_r.
    repeat split; try done; lia. }
  destruct (Z.gtb_spec (length buffer + length (f name) + 2) maxSize)
    as [Hover|Hfits].
  { exists 0%nat. simpl. rewrite app_nil_r, Z.add_0_r.
    repeat split; try done; try lia.
    intros ? [= <-]. rewrite length_app. simpl. lia. }
  destruct (IH (buffer ++ f name ++ [tnul]) (count + 1))
    as (k & Hloop & Hk & Hfit & Hnext).
  exists (S k). simpl. rewrite ZSSTR_cons.
  rewrite <- !app_assoc in *. simpl in *.
  rewrite Hloop. split.
  { f_equal; [f_equal|lia]. apply bool_decide_ext. lia. }
  split; [lia|]. split; [|done].
  intros _. destruct k as [|k]; [|apply Hfit; lia].
  simpl. rewrite !length_app. simpl. lia.
Qed.

End EnumerationFacts.

Section EnumerationHandler.
Context {TChar : Type} `{!TCharT TChar}.
Context {String : Type} `{Countable String}.
Context {Disk : Type} `{!Collaborators TChar String Disk}.

Local Abbreviation Redirector := (RedirectorInterface TChar String Disk).
Implicit Types (r : Redirector) (o : ConfigObject String).
Implicit Types (buf file : list TChar).

(** [GetStringT] in either enumeration mode. *)
Lemma GetStringT_enumerates appName keyName def buf nSize file r p o r' :
  appName = None ∨ keyName = None →
  2 ≤ nSize →
  GetOrLoadFile (EncodingTo (c_str file)) r = (p, o, r') →
  GetStringT appName keyName def (Some buf) nSize (Some file) r
  = let '(list, truncated, _) :=
      CreateZSSTRZZ (λ name, Some (EncodingFrom name))
        (enumerated_names appName (m_INI o)) nSize in
    let length := Z.of_nat (length list) in
    let '(hr, _, buffer) :=
      StringCopyBuffer (Some buf) nSize (Some list) length in
    (to_DWORD (enum_result hr truncated length nSize), buffer, r').
Proof.
  intros Hmode Hsize Hentry. unfold GetStringT. simpl.
  destruct (Z.ltb_spec nSize 2) as [?|_]; [lia|].
  rewrite Hentry.
  destruct appName as [app|]; [|done].
  destruct keyName as [key|]; [|done].
  by destruct Hmode.
Qed.

(** C8.  An enumeration of section names (null [appName]) or of key names
    (null [keyName]) whose list does not fit the capacity: the list stops
    before the first item that would overflow, the truncated flag is set,
    the list holds whole items only, each with its NUL, and the final NUL,
    it fits the capacity and reaches the buffer whole, and the call returns
    [nSize - 2]. *)
Theorem GetStringT_enumeration_truncated
    appName keyName def buf nSize file r p o r'
    (Hmode : appName = None ∨ keyName = None)
    (Hsize : 2 ≤ nSize < 2 ^ 32) (Hbuf : nSize ≤ length buf)
    (Hentry : GetOrLoadFile (EncodingTo (c_str file)) r = (p, o, r'))
    (Hover :
       nSize < length (ZSSTR (EncodingFrom <$>
                                enumerated_names appName (m_INI o))
                       ++ [tnul])) :
  let names := enumerated_names appName (m_INI o) in
  ∃ (k : nat) (name : String),
    names !! k = Some name ∧
    let list := ZSSTR (EncodingFrom <$> take k names) ++ [tnul] in
    CreateZSSTRZZ (λ name, Some (EncodingFrom name)) names nSize
    = (list, true, Z.of_nat k) ∧
    length list ≤ nSize ∧
    nSize < length list + length (EncodingFrom name ++ [tnul]) ∧
    GetStringT appName keyName def (Some buf) nSize (Some file) r
    = (nSize - 2,
       Some (list ++ replicate (Z.to_nat (nSize - length list)) tnul
             ++ drop (Z.to_nat nSize) buf),
       r').
Proof.
  intros names.
  rewrite (GetStringT_enumerates _ _ _ _ _ _ _ _ _ _ Hmode (proj1 Hsize)
             Hentry).
  fold names in Hover |- *. unfold CreateZSSTRZZ.
  destruct (CreateZSSTRZZ_loop_spec EncodingFrom names nSize [] 0)
    as (k & Hloop & Hk & Hfit & Hnext).
  rewrite Hloop. simpl in *.
  assert (k < length names)%nat as Hlt.
  { destruct (decide (k = length names)) as [->|]; [|lia].
    rewrite firstn_all in Hfit. rewrite length_app in Hover. simpl in Hover.
    destruct names; simpl in *; lia. }
  destruct (lookup_lt_is_Some_2 names k Hlt) as [name Hname].
  exists k, name. split; [done|].
  rewrite bool_decide_eq_true_2 by done.
  split; [done|].
  assert (Z.of_nat (length (ZSSTR (EncodingFrom <$> take k names) ++ [tnul]))
          ≤ nSize) as Hlen.
  { rewrite length_app. simpl. destruct k; [simpl; lia|].
    specialize (Hfit ltac:(lia)). lia. }
  split; [done|]. split.
  { specialize (Hnext _ Hname). rewrite !length_app in *. simpl in *. lia. }
  rewrite StringCopyBuffer_terminated
    by (rewrite length_app in Hlen; simpl in Hlen; lia).
  unfold enum_result. simpl.
  rewrite dword_sub_small, to_DWORD_small by lia. done.
Qed.
End EnumerationHandler.

Section INIFacts.
Context {String : Type} `{!EqDecision String}.
Implicit Types (ini : INIDoc String) (section key value k : String).

Lemma assoc_find_set {V : Type} k (v : V) l :
  assoc_find k (assoc_set k v l) = Some v.
Proof.
  induction l as [|[k' v'] l IH]; simpl; repeat case_decide; simpl;
    repeat case_decide; done.
Qed.

Lemma assoc_find_set_ne {V : Type} k k' (v : V) l :
  k' ≠ k → assoc_find k' (assoc_set k v l) = assoc_find k' l.
Proof.
  intros Hne.
  induction l as [|[k0 v0] l IH]; simpl; repeat case_decide; simpl;
    repeat case_decide; try done; congruence.
Qed.

Lemma assoc_find_remove {V : Type} k (l : list (String * V)) :
  assoc_find k (assoc_remove k l) = None.
Proof.
  induction l as [|[k' v'] l IH]; simpl; repeat case_decide; simpl;
    repeat case_decide; done.
Qed.

Lemma assoc_find_remove_ne {V : Type} k k' (l : list (String * V)) :
  k' ≠ k → assoc_find k' (assoc_remove k l) = assoc_find k' l.
Proof.
  intros Hne.
  induction l as [|[k0 v0] l IH]; simpl; repeat case_decide; simpl;
    repeat case_decide; try done; congruence.
Qed.

Lemma QueryValue_SetValue section key value ini :
  QueryValue section key (SetValue section key value ini).2 = Some value.
Proof.
  unfold SetValue. case_decide as Hsame; simpl; [done|].
  unfold QueryValue. by rewrite !assoc_find_set.
Qed.

Lemma SetValue_same section key value ini :
  QueryValue section key ini = Some value →
  SetValue section key value ini = (true, true, ini).
Proof. intros Hq. unfold SetValue. by case_decide. Qed.

Lemma SetValue_ok section key value ini :
  (SetValue section key value ini).1.1 = true.
Proof. unfold SetValue. by case_decide. Qed.

Lemma QueryValue_DeleteKey section key ini :
  QueryValue section key (DeleteKey section key ini).2 = None.
Proof.
  unfold DeleteKey, QueryValue.
  destruct (assoc_find section ini) as [kvs|] eqn:Hs; simpl.
  - destruct (assoc_find key kvs) eqn:Hk; simpl.
    + by rewrite assoc_find_set, assoc_find_remove.
    + by rewrite Hs.
  - by rewrite Hs.
Qed.

Lemma QueryValue_DeleteKey_ne section key section' key' ini :
  (section', key') ≠ (section, key) →
  QueryValue section' key' (DeleteKey section key ini).2
  = QueryValue section' key' ini.
Proof.
  intros Hne. unfold DeleteKey, QueryValue.
  destruct (assoc_find section ini) as [kvs|] eqn:Hs; simpl; [|done].
  destruct (assoc_find key kvs) eqn:Hk; simpl; [|done].
  destruct (decide (section' = section)) as [->|Hsec].
  - rewrite assoc_find_set, Hs.
    apply assoc_find_remove_ne. congruence.
  - by rewrite assoc_find_set_ne.
Qed.

Lemma DeleteKey_deleted section key ini :
  (DeleteKey section key ini).1
  = bool_decide (is_Some (QueryValue section key ini)).
Proof.
  unfold DeleteKey, QueryValue.
  destruct (assoc_find section ini) as [kvs|]; [|done].
  by destruct (assoc_find key kvs).
Qed.

Lemma QueryValue_DeleteSection section key ini :
  QueryValue section key (DeleteSection section ini).2 = None.
Proof.
  unfold DeleteSection, QueryValue.
  destruct (assoc_find section ini) eqn:Hs; simpl.
  - by rewrite assoc_find_remove.
  - by rewrite Hs.
Qed.

Lemma QueryValue_DeleteSection_ne section section' key ini :
  section' ≠ section →
  QueryValue section' key (DeleteSection section ini).2
  = QueryValue section' key ini.
Proof.
  intros Hne. unfold DeleteSection, QueryValue.
  destruct (assoc_find section ini) eqn:Hs; simpl; [|done].
  by rewrite assoc_find_remove_ne.
Qed.
End INIFacts.

Section WriteFacts.
Context {TChar : Type} `{!TCharT TChar}.
Context {String : Type} `{Countable String}.
Context {Disk : Type} `{!Collaborators TChar String Disk}.

Local Abbreviation Redirector := (RedirectorInterface TChar String Disk).
Implicit Types (r : Redirector) (o : ConfigObject String).
Implicit Types (buf file app key str : list TChar).

(** What a save may change: the dirty flag of the entry, the disk and the
    events.  The document, the cache map and the policy flags stay. *)
Lemma SaveFile_frame fromOnWrite o r o' r' :
  SaveFile fromOnWrite o r = (o', r') →
  m_INI o' = m_INI o ∧ m_INIMap r' = m_INIMap r ∧
  m_NativeWrite r' = m_NativeWrite r.
Proof.
  unfold SaveFile.
  destruct (m_IsChanged o && _); [|by intros [= <- <-]].
  destruct (SaveDocument _ _ _); by intros [= <- <-].
Qed.

Lemma OnWrite_frame o r o' r' :
  OnWrite o r = (o', r') →
  m_INI o' = m_INI o ∧ m_INIMap r' = m_INIMap r ∧
  m_NativeWrite r' = m_NativeWrite r.
Proof. unfold OnWrite. intros Hs. by apply SaveFile_frame in Hs. Qed.

(** The in-memory write on a named section of a named file: the entry of
    the file holds the document the selected operation leaves, and the
    result is the operation's. *)
Lemma WriteStringToMemoryFile_entry app keyName lpString file r p o r0 :
  GetOrLoadFile (EncodingTo (c_str file)) r = (p, o, r0) →
  let ini := m_INI o in
  let operation : bool * INIDoc String :=
    match keyName, lpString with
    | None, _ => DeleteSection (EncodingTo (c_str app)) ini
    | Some key, None =>
        DeleteKey (EncodingTo (c_str app)) (EncodingTo (c_str key)) ini
    | Some key, Some str =>
        let set :=
          SetValue (StringFromTChar (c_str app)) (StringFromTChar (c_str key))
            (EncodingTo (c_str str)) ini in
        (set.1.1, set.2)
    end in
  ∃ o1 r1,
    WriteStringToMemoryFile (Some app) keyName lpString (Some file) r
    = (operation.1, r1) ∧
    m_INIMap r1 !! p = Some o1 ∧ m_INI o1 = operation.2 ∧
    m_NativeWrite r1 = m_NativeWrite r.
Proof.
  intros Hentry. simpl. unfold WriteStringToMemoryFile. rewrite Hentry.
  apply GetOrLoadFile_entry in Hentry as (_ & _ & _ & Hnw & _).
  destruct keyName as [key|]; [destruct lpString as [str|]|].
  - destruct (SetValue _ _ _ _) as [[ok isSameData] ini']. simpl.
    destruct ok; [destruct isSameData|].
    + eexists _, _. split; [done|]. simpl. by rewrite lookup_insert_eq.
    + destruct (OnWrite _ _) as [o1 r1] eqn:Hw.
      apply OnWrite_frame in Hw as (Hini & _ & Hnw1).
      eexists _, _. split; [done|]. simpl. rewrite lookup_insert_eq.
      rewrite Hini, Hnw1. done.
    + eexists _, _. split; [done|]. simpl. by rewrite lookup_insert_eq.
  - destruct (DeleteKey _ _ _) as [deleted ini']. simpl.
    destruct deleted.
    + destruct (OnWrite _ _) as [o1 r1] eqn:Hw.
      apply OnWrite_frame in Hw as (Hini & _ & Hnw1).
      eexists _, _. split; [done|]. simpl. rewrite lookup_insert_eq.
      rewrite Hini, Hnw1. done.
    + eexists _, _. split; [done|]. simpl. by rewrite lookup_insert_eq.
  - destruct (DeleteSection _ _) as [deleted ini']. simpl.
    destruct deleted.
    + destruct (OnWrite _ _) as [o1 r1] eqn:Hw.
      apply OnWrite_frame in Hw as (Hini & _ & Hnw1).
      eexists _, _. split; [done|]. simpl. rewrite lookup_insert_eq.
      rewrite Hini, Hnw1. done.
    + eexists _, _. split; [done|]. simpl. by rewrite lookup_insert_eq.
Qed.

(** The in-memory write never changes the native-write option. *)
Lemma WriteStringToMemoryFile_NativeWrite appName keyName lpString lpFileName
    r :
  m_NativeWrite (WriteStringToMemoryFile appName keyName lpString lpFileName r).2
  = m_NativeWrite r.
Proof.
  destruct lpFileName as [file|]; [|done].
  destruct appName as [app|]; [|done].
  destruct (GetOrLoadFile (EncodingTo (c_str file)) r) as [[p o] r0] eqn:He.
  pose proof (WriteStringToMemoryFile_entry app keyName lpString file _ _ _ _
                He) as Hw.
  by destruct Hw as (o1 & r1 & -> & _ & _ & Hnw).
Qed.
End WriteFacts.

Section WriteString.
Context {TChar : Type} `{!TCharT TChar}.
Context {String : Type} `{Countable String}.
Context {Disk : Type} `{!Collaborators TChar String Disk}.

Local Abbreviation Redirector := (RedirectorInterface TChar String Disk).
Implicit Types (r : Redirector) (o : ConfigObject String).
Implicit Types (buf file app key str : list TChar).

Lemma WriteStringT_cache appName keyName lpString lpFileName r :
  m_INIMap (WriteStringT appName keyName lpString lpFileName r).2
  = m_INIMap (WriteStringToMemoryFile appName keyName lpString lpFileName r).2.
Proof.
  unfold WriteStringT.
  destruct (WriteStringToMemoryFile _ _ _ _ _) as [ok r1]. simpl.
  destruct (m_NativeWrite r1); [|done].
  by destruct (InvokeTarget _ _ _ _ _).
Qed.

(** C3 (amended).  [WriteStringT] of a value for (section, key) in a file, followed by
    [GetStringT] for the same section, key and file into a buffer larger
    than the value, succeeds in memory and returns the written value and
    its length, for a value the converter takes to the internal text and
    back unchanged and names that the [kxf::String] constructor and the
    converter read alike. *)
Theorem WriteStringT_GetStringT_round_trip
    app key str def buf nSize file r
    (Hvalue : EncodingFrom (EncodingTo (c_str str)) = c_str str)
    (Hsection : StringFromTChar (c_str app) = EncodingTo (c_str app))
    (Hkey : StringFromTChar (c_str key) = EncodingTo (c_str key))
    (Hmin : 2 ≤ nSize)
    (Hsize : Z.of_nat (length (c_str str)) < nSize < 2 ^ 32)
    (Hbuf : nSize ≤ length buf) :
  let written := WriteStringT (Some app) (Some key) (Some str) (Some file) r in
  (WriteStringToMemoryFile (Some app) (Some key) (Some str) (Some file) r).1
  = true ∧
  ∃ buffer r2,
    GetStringT (Some app) (Some key) def (Some buf) nSize (Some file)
      written.2
    = (Z.of_nat (length (c_str str)), Some buffer, r2) ∧
    take (S (length (c_str str))) buffer = c_str str ++ [tnul].
Proof.
  intros written.
  destruct (GetOrLoadFile (EncodingTo (c_str file)) r) as [[p o] r0] eqn:He.
  pose proof (WriteStringToMemoryFile_entry app (Some key) (Some str) file
                _ _ _ _ He) as Hw.
  simpl in Hw. destruct Hw as (o1 & r1 & Hw & Ho1 & Hini & _).
  rewrite SetValue_ok in Hw.
  pose proof (QueryValue_SetValue (StringFromTChar (c_str app))
                (StringFromTChar (c_str key)) (EncodingTo (c_str str))
                (m_INI o)) as Hq.
  split; [by rewrite Hw|].
  assert (m_INIMap written.2 !! p = Some o1) as Hcached.
  { subst written. by rewrite WriteStringT_cache, Hw. }
  apply GetOrLoadFile_entry in He as (-> & _).
  apply GetOrLoadFile_cached in Hcached.
  rewrite <- Hini, Hsection, Hkey in Hq.
  rewrite (GetStringT_found _ _ _ _ _ _ _ _ _ _ _ Hmin Hcached Hq).
  cbv zeta. rewrite Hvalue.
  rewrite StringCopyBuffer_room by lia.
  assert ((S_OK =? STRSAFE_E_INSUFFICIENT_BUFFER) = false) as -> by done.
  rewrite to_DWORD_small by lia.
  eexists _, _. split; [done|].
  rewrite Nat2Z.id, firstn_all.
  replace (Z.to_nat (nSize - length (c_str str)))
    with (S (Z.to_nat (nSize - length (c_str str) - 1))) by lia.
  simpl. rewrite cons_middle, app_assoc.
  apply take_app_length'. rewrite length_app. simpl. lia.
Qed.

(** C4.  The in-memory write selects by nullability: a null key deletes the
    entire section and nothing of the other sections, a key with a null
    string deletes that single key and leaves every other key as it was,
    and a key with a string sets (section, key) to the value.  The result
    is a success flag, which [WriteStringT] returns as [TRUE] or [FALSE]. *)
Theorem WriteStringToMemoryFile_dispatch
    app keyName lpString file r p o r0
    (Hentry : GetOrLoadFile (EncodingTo (c_str file)) r = (p, o, r0)) :
  let section := EncodingTo (c_str app) in
  let ini := m_INI o in
  ∃ ok o1 r1,
    WriteStringToMemoryFile (Some app) keyName lpString (Some file) r
    = (ok, r1) ∧
    m_INIMap r1 !! p = Some o1 ∧
    (m_NativeWrite r = false →
     WriteStringT (Some app) keyName lpString (Some file) r
     = (if ok then TRUE else FALSE, r1)) ∧
    match keyName, lpString with
    | None, _ =>
        (ok, m_INI o1) = DeleteSection section ini ∧
        (∀ k, QueryValue section k (m_INI o1) = None) ∧
        (∀ s k, s ≠ section →
                QueryValue s k (m_INI o1) = QueryValue s k ini)
    | Some key, None =>
        (ok, m_INI o1) = DeleteKey section (EncodingTo (c_str key)) ini ∧
        QueryValue section (EncodingTo (c_str key)) (m_INI o1) = None ∧
        (∀ s k, (s, k) ≠ (section, EncodingTo (c_str key)) →
                QueryValue s k (m_INI o1) = QueryValue s k ini)
    | Some key, Some str =>
        let section := StringFromTChar (c_str app) in
        let key := StringFromTChar (c_str key) in
        let value := EncodingTo (c_str str) in
        (ok, m_INI o1) = (true, (SetValue section key value ini).2) ∧
        QueryValue section key (m_INI o1) = Some value
    end.
Proof.
  intros section ini.
  pose proof (WriteStringToMemoryFile_entry app keyName lpString file
                _ _ _ _ Hentry) as Hw.
  cbv zeta in Hw. fold ini section in Hw.
  destruct Hw as (o1 & r1 & Hw & Ho1 & Hini & Hnw).
  eexists _, o1, r1. split; [exact Hw|]. split; [done|]. split.
  { intros Hoff. unfold WriteStringT. rewrite Hw, Hnw, Hoff. done. }
  rewrite Hini.
  destruct keyName as [key|]; [destruct lpString as [str|]|]; simpl.
  - rewrite SetValue_ok. split; [done|]. apply QueryValue_SetValue.
  - split; [by destruct (DeleteKey _ _ _)|].
    split; [apply QueryValue_DeleteKey|].
    intros s k Hne. by apply QueryValue_DeleteKey_ne.
  - split; [by destruct (DeleteSection _ _)|].
    split; [intros k; apply QueryValue_DeleteSection|].
    intros s k Hne. by apply QueryValue_DeleteSection_ne.
Qed.

(** C5 (amended).  Writing the value that (section, key) already holds
    changes nothing in the cache: the entry is the one [GetOrLoadFile]
    returned, with its document and its dirty flag, and a redirector that
    had the entry cached is the same after the in-memory write; that write
    records no event and leaves the disk, so nothing was saved, and it
    reports success.  Without the [NativeWrite] option the handler returns
    [TRUE]; with it the handler then calls the original function, records
    that call alone, and returns what the call returns. *)
Theorem WriteStringToMemoryFile_same_value
    app key str file r p o r0
    (Hentry : GetOrLoadFile (EncodingTo (c_str file)) r = (p, o, r0))
    (Hsame :
       QueryValue (StringFromTChar (c_str app)) (StringFromTChar (c_str key))
         (m_INI o)
       = Some (EncodingTo (c_str str))) :
  WriteStringToMemoryFile (Some app) (Some key) (Some str) (Some file) r
  = (true, r0) ∧
  m_INIMap r0 !! p = Some o ∧
  (m_INIMap r !! p = Some o → r0 = r) ∧
  m_Events r0 = m_Events r ∧ m_Disk r0 = m_Disk r ∧
  (m_NativeWrite r = false →
   WriteStringT (Some app) (Some key) (Some str) (Some file) r = (TRUE, r0)) ∧
  (m_NativeWrite r = true →
   let native :=
     InvokeTarget (Some app) (Some key) (Some str) (Some file) (m_Disk r) in
   WriteStringT (Some app) (Some key) (Some str) (Some file) r
   = (native.1,
      outside native.2
        (EvInvokeTarget (Some app) (Some key) (Some str) (Some file)) r0)) ∧
  m_INIMap (WriteStringT (Some app) (Some key) (Some str) (Some file) r).2
  = m_INIMap r0 ∧
  m_Events (WriteStringT (Some app) (Some key) (Some str) (Some file) r).2
  = m_Events r
      ++ (if m_NativeWrite r
          then [EvInvokeTarget (Some app) (Some key) (Some str) (Some file)]
          else []).
Proof.
  pose proof (GetOrLoadFile_entry _ _ _ _ _ Hentry)
    as (Hp & Ho & _ & Hnw & _ & Hdisk & _ & Hevents).
  assert (m_INIMap r !! p = Some o → r0 = r) as Hcached.
  { intros Hin. subst p. apply GetOrLoadFile_cached in Hin. congruence. }
  assert (WriteStringToMemoryFile (Some app) (Some key) (Some str) (Some file)
            r = (true, r0)) as Hw.
  { unfold WriteStringToMemoryFile. rewrite Hentry.
    rewrite (SetValue_same _ _ _ _ Hsame).
    replace (set_INI (m_INI o) o) with o by (by destruct o).
    by rewrite put_entry_same. }
  assert (WriteStringT (Some app) (Some key) (Some str) (Some file) r
          = if m_NativeWrite r
            then ((InvokeTarget (Some app) (Some key) (Some str) (Some file)
                     (m_Disk r)).1,
                  outside
                    (InvokeTarget (Some app) (Some key) (Some str) (Some file)
                       (m_Disk r)).2
                    (EvInvokeTarget (Some app) (Some key) (Some str)
                       (Some file)) r0)
            else (TRUE, r0)) as Hcall.
  { unfold WriteStringT. rewrite Hw, Hnw, Hdisk.
    destruct (m_NativeWrite r); [|done].
    by destruct (InvokeTarget _ _ _ _ _). }
  split; [done|]. split; [done|]. split; [done|]. split; [done|].
  split; [done|]. rewrite Hcall.
  split; [by intros ->|]. split; [by intros ->|].
  destruct (m_NativeWrite r); simpl.
  - by rewrite Hevents.
  - by rewrite Hevents, app_nil_r.
Qed.

(** C7.  With the [NativeWrite] option the handler calls the original
    function with its own four arguments on the state the in-memory write
    left, and returns what that call returns; without the option it returns
    the outcome of the in-memory write. *)
Theorem WriteStringT_native_write appName keyName lpString lpFileName r :
  let memory :=
    WriteStringToMemoryFile appName keyName lpString lpFileName r in
  let native :=
    InvokeTarget appName keyName lpString lpFileName (m_Disk memory.2) in
  (m_NativeWrite r = true →
   WriteStringT appName keyName lpString lpFileName r
   = (native.1,
      outside native.2
        (EvInvokeTarget appName keyName lpString lpFileName) memory.2) ∧
   m_INIMap (WriteStringT appName keyName lpString lpFileName r).2
   = m_INIMap memory.2 ∧
   m_Events (WriteStringT appName keyName lpString lpFileName r).2
   = m_Events memory.2
       ++ [EvInvokeTarget appName keyName lpString lpFileName]) ∧
  (m_NativeWrite r = false →
   WriteStringT appName keyName lpString lpFileName r
   = (if memory.1 then TRUE else FALSE, memory.2)).
Proof.
  intros memory native. subst native.
  pose proof (WriteStringToMemoryFile_NativeWrite appName keyName lpString
                lpFileName r) as Hnw.
  fold memory in Hnw. unfold WriteStringT. fold memory.
  destruct memory as [ok r1]. simpl in *. rewrite Hnw.
  split; intros ->; [|done].
  by destruct (InvokeTarget _ _ _ _ _).
Qed.
End WriteString.

Section ReadString.
Context {TChar : Type} `{!TCharT TChar}.
Context {String : Type} `{Countable String}.
Context {Disk : Type} `{!Collaborators TChar String Disk}.

Local Abbreviation Redirector := (RedirectorInterface TChar String Disk).
Local Abbreviation LPCTSTR := (option (list TChar)).
Implicit Types (r : Redirector) (o : ConfigObject String).
Implicit Types (buf file app key dflt : list TChar).

(** A default shorter than the capacity is delivered whole. *)
Lemma GetStringT_short_default app key dflt buf nSize file r p o r' :
  2 ≤ nSize ≤ STRSAFE_MAX_CCH → nSize ≤ length buf →
  GetOrLoadFile (EncodingTo (c_str file)) r = (p, o, r') →
  QueryValue (EncodingTo (c_str app)) (EncodingTo (c_str key)) (m_INI o)
  = None →
  length (c_str dflt) < nSize →
  GetStringT (Some app) (Some key) (Some dflt) (Some buf) nSize (Some file) r
  = (Z.of_nat (length (c_str dflt)),
     Some (c_str dflt
           ++ replicate (Z.to_nat (nSize - length (c_str dflt))) tnul
           ++ drop (Z.to_nat nSize) buf),
     r').
Proof.
  intros Hsize Hbuf Hentry Hmissing Hshort.
  rewrite (GetStringT_default _ _ _ _ _ _ _ _ _ _ (proj1 Hsize) Hentry)
    by done.
  rewrite StringCchLength_spec by lia.
  rewrite decide_True by lia.
  pose proof (c_str_length_le dflt).
  rewrite StringCopyBuffer_room by lia.
  rewrite Nat2Z.id, c_str_prefix.
  assert ((S_OK =? STRSAFE_E_INSUFFICIENT_BUFFER) = false) as -> by done.
  rewrite to_DWORD_small; [done|].
  unfold STRSAFE_MAX_CCH in Hsize. lia.
Qed.

(** Without a default an empty string is delivered and the result is 0. *)
Lemma GetStringT_no_default app key buf nSize file r p o r' :
  2 ≤ nSize → nSize ≤ length buf →
  GetOrLoadFile (EncodingTo (c_str file)) r = (p, o, r') →
  QueryValue (EncodingTo (c_str app)) (EncodingTo (c_str key)) (m_INI o)
  = None →
  GetStringT (Some app) (Some key) None (Some buf) nSize (Some file) r
  = (0, Some (replicate (Z.to_nat nSize) tnul ++ drop (Z.to_nat nSize) buf),
     r').
Proof.
  intros Hsize Hbuf Hentry Hmissing. unfold GetStringT. simpl.
  destruct (Z.ltb_spec nSize 2) as [?|_]; [lia|].
  rewrite Hentry, Hmissing.
  rewrite (StringCopyBuffer_room buf [tnul] nSize 1) by (simpl; lia).
  simpl. do 3 f_equal.
  replace (Z.to_nat nSize) with (S (Z.to_nat (nSize - 1))) at 2 by lia.
  done.
Qed.

(** C9 (amended).  With a null file path the read handlers and the
    in-memory write fail with [ERROR_FILE_NOT_FOUND] and return 0, the
    default integer or false, and the cache is as before; [WriteStringT]
    returns that false as [FALSE] without the [NativeWrite] option, and with
    it passes the call on to the original function and returns its result.
    With a file path and a null buffer or a capacity below 2, [GetStringT] and [GetSectionNamesT] fail with
    [ERROR_INSUFFICIENT_BUFFER] and return 0, and so does [GetSectionT] when
    the section name is not null; with a null section name [GetSectionT]
    fails with [ERROR_INVALID_PARAMETER] before it looks at the buffer. *)
Theorem handlers_validate_arguments
    (appName keyName defaultValue lpString lpReturnedString : LPCTSTR)
    (intDefault nSize : Z) file r
    (Hbuffer : lpReturnedString = None ∨ nSize < 2) :
  let not_found := SetLastError ERROR_FILE_NOT_FOUND r in
  let insufficient := SetLastError ERROR_INSUFFICIENT_BUFFER r in
  (m_INIMap not_found = m_INIMap r ∧ m_INIMap insufficient = m_INIMap r) ∧
  (∀ (buffer : LPCTSTR) (size : Z),
     GetStringT appName keyName defaultValue buffer size None r
     = (0, buffer, not_found) ∧
     GetSectionNamesT buffer size None r = (0, buffer, not_found) ∧
     GetSectionT appName buffer size None r = (0, buffer, not_found)) ∧
  GetIntT appName keyName intDefault None r
  = (to_DWORD intDefault, not_found) ∧
  WriteStringToMemoryFile appName keyName lpString None r
  = (false, not_found) ∧
  (m_NativeWrite r = false →
   WriteStringT appName keyName lpString None r = (FALSE, not_found)) ∧
  (m_NativeWrite r = true →
   let native := InvokeTarget appName keyName lpString None (m_Disk r) in
   WriteStringT appName keyName lpString None r
   = (native.1,
      outside native.2 (EvInvokeTarget appName keyName lpString None)
        not_found)) ∧
  GetStringT appName keyName defaultValue lpReturnedString nSize (Some file) r
  = (0, lpReturnedString, insufficient) ∧
  GetSectionNamesT lpReturnedString nSize (Some file) r
  = (0, lpReturnedString, insufficient) ∧
  (∀ app,
     GetSectionT (Some app) lpReturnedString nSize (Some file) r
     = (0, lpReturnedString, insufficient)) ∧
  GetSectionT None lpReturnedString nSize (Some file) r
  = (0, lpReturnedString, SetLastError ERROR_INVALID_PARAMETER r).
Proof.
  intros not_found insufficient.
  assert (is_null lpReturnedString || (nSize <? 2) = true) as Hcheck.
  { destruct Hbuffer as [->|Hsmall]; [done|].
    apply orb_true_iff. right. by apply Z.ltb_lt. }
  split; [done|]. split; [done|]. split; [done|]. split; [done|].
  split.
  { intros Hoff. unfold WriteStringT, WriteStringToMemoryFile. simpl.
    by rewrite Hoff. }
  split.
  { intros Hon. unfold WriteStringT, WriteStringToMemoryFile. simpl.
    rewrite Hon. by destruct (InvokeTarget _ _ _ _ _). }
  unfold GetSectionNamesT, GetStringT, GetSectionT.
  rewrite Hcheck. done.
Qed.

(** C10.  When (section, key) is not found and the default is at least
    [nSize] characters long, its length is measured with the maximum
    [nSize], the measurement fails with length 0, and the call returns 0
    with the capacity zero-filled; a stored value of that length reaches
    the buffer cut to [nSize - 1] characters and a NUL. *)
Theorem GetStringT_long_default_not_delivered
    app key dflt buf nSize file r p o r'
    (Hsize : 2 ≤ nSize < 2 ^ 32) (Hbuf : nSize ≤ length buf)
    (Hentry : GetOrLoadFile (EncodingTo (c_str file)) r = (p, o, r'))
    (Hmissing :
       QueryValue (EncodingTo (c_str app)) (EncodingTo (c_str key)) (m_INI o)
       = None)
    (Hlong : nSize ≤ length (c_str dflt)) :
  StringLength (Some dflt) nSize = (STRSAFE_E_INVALID_PARAMETER, 0) ∧
  GetStringT (Some app) (Some key) (Some dflt) (Some buf) nSize (Some file) r
  = (0, Some (replicate (Z.to_nat nSize) tnul ++ drop (Z.to_nat nSize) buf),
     r') ∧
  ∀ app' key' value,
    QueryValue (EncodingTo (c_str app')) (EncodingTo (c_str key')) (m_INI o)
    = Some value →
    nSize ≤ length (EncodingFrom value) →
    ∃ result,
      GetStringT (Some app') (Some key') (Some dflt) (Some buf) nSize
        (Some file) r
      = (result,
         Some (take (Z.to_nat (nSize - 1)) (EncodingFrom value) ++ [tnul]
               ++ drop (Z.to_nat nSize) buf),
         r').
Proof.
  assert (StringCchLength dflt nSize = (STRSAFE_E_INVALID_PARAMETER, 0))
    as Hmeasure.
  { rewrite StringCchLength_spec by lia. case_decide; [lia|done]. }
  split; [done|]. split.
  - rewrite (GetStringT_default _ _ _ _ _ _ _ _ _ _ (proj1 Hsize) Hentry)
      by done.
    rewrite Hmeasure.
    rewrite StringCopyBuffer_room by lia.
    rewrite Z.sub_0_r. done.
  - intros app' key' value Hvalue Hlen.
    rewrite (GetStringT_found _ _ _ _ _ _ _ _ _ _ value (proj1 Hsize) Hentry)
      by done.
    cbv zeta.
    destruct (StringCopyBuffer_full buf (EncodingFrom value) nSize
                (Z.of_nat (length (EncodingFrom value))))
      as (hr & -> & _); [lia|lia|].
    eauto.
Qed.
End ReadString.

(** * Further properties of the marshaling helpers *)

Section CopyImage.
Context {TChar : Type} `{!TCharT TChar}.
Implicit Types d s : list TChar.

Lemma c_str_app_nul s (rest : list TChar) :
  c_str (s ++ tnul :: rest) = c_str s.
Proof.
  induction s as [|c s IH]; simpl.
  - by rewrite decide_True.
  - case_decide; [done|]. by rewrite IH.
Qed.

Lemma c_str_nul_free s : tnul ∉ s → c_str s = s.
Proof.
  induction s as [|c s IH]; [done|]. intros Hfree. simpl.
  rewrite decide_False by (intros ->; apply Hfree; left).
  rewrite IH; [done|]. intros Hin. apply Hfree. by right.
Qed.

Lemma c_str_idemp s : c_str (c_str s) = c_str s.
Proof.
  induction s as [|c s IH]; [done|]. simpl.
  case_decide as Hc; [done|]. simpl. rewrite decide_False by done.
  by rewrite IH.
Qed.

Lemma c_str_app_nul_free s (rest : list TChar) :
  tnul ∉ s → c_str (s ++ tnul :: rest) = s.
Proof. intros Hfree. by rewrite c_str_app_nul, c_str_nul_free. Qed.

(** What a copy between valid buffers leaves and returns, in one
    equation: a body of [dstSize] characters that replaces the capacity. *)
Lemma StringCopyBuffer_image d s dstSize srcSize :
  0 ≤ dstSize ≤ length d → 0 ≤ srcSize ≤ length s →
  let exact_fit :=
    bool_decide (dstSize = srcSize ∧ s !! Z.to_nat (srcSize - 1) = Some tnul) in
  let body :=
    if srcSize <? dstSize then
      take (Z.to_nat srcSize) s ++ replicate (Z.to_nat (dstSize - srcSize)) tnul
    else if dstSize =? 0 then []
    else take (Z.to_nat (dstSize - 1)) s ++ [tnul] in
  StringCopyBuffer (Some d) dstSize (Some s) srcSize
  = (if (srcSize <? dstSize) || (dstSize =? 0) || exact_fit
     then S_OK else STRSAFE_E_INSUFFICIENT_BUFFER,
     Z.min dstSize srcSize,
     Some (body ++ drop (Z.to_nat dstSize) d)).
Proof.
  intros Hd Hs. cbv zeta.
  destruct (Z.ltb_spec srcSize dstSize) as [Hlt|Hge]; simpl.
  { rewrite StringCopyBuffer_room by lia.
    rewrite Z.min_r by lia. by rewrite <- app_assoc. }
  destruct (Z.eqb_spec dstSize 0) as [->|Hpos]; simpl.
  { rewrite StringCopyBuffer_cases by lia.
    rewrite Z.min_l by lia. done. }
  destruct (StringCopyBuffer_full d s dstSize srcSize) as (hr & -> & ->);
    [lia|lia|].
  rewrite Z.min_l by lia. rewrite <- app_assoc. done.
Qed.

Lemma StringCopyBuffer_safe d s dstSize srcSize :
  0 ≤ dstSize ≤ length d → 0 ≤ srcSize ≤ length s →
  ∃ hr copied d',
    StringCopyBuffer (Some d) dstSize (Some s) srcSize
    = (hr, copied, Some d') ∧
    length d' = length d ∧
    drop (Z.to_nat dstSize) d' = drop (Z.to_nat dstSize) d ∧
    (1 ≤ dstSize →
     c_str d' = c_str (take (Z.to_nat (Z.min srcSize (dstSize - 1))) s) ∧
     Z.of_nat (length (c_str d')) < dstSize).
Proof.
  intros Hd Hs.
  rewrite StringCopyBuffer_image by done. cbv zeta.
  eexists _, _, _. split; [done|].
  assert (∀ body : list TChar,
            length body = Z.to_nat dstSize →
            length (body ++ drop (Z.to_nat dstSize) d) = length d ∧
            drop (Z.to_nat dstSize) (body ++ drop (Z.to_nat dstSize) d)
            = drop (Z.to_nat dstSize) d) as Hframe.
  { intros body Hbody. rewrite length_app, length_drop.
    split; [lia|]. by rewrite drop_app_length'. }
  assert (∀ k, (k < Z.to_nat dstSize)%nat →
               Z.of_nat (length (c_str (take k s))) < dstSize) as Hshort.
  { intros k Hk. pose proof (c_str_length_le (take k s)) as Hle.
    rewrite length_take in Hle. lia. }
  destruct (Z.ltb_spec srcSize dstSize) as [Hlt|Hge].
  - destruct (Hframe (take (Z.to_nat srcSize) s
                      ++ replicate (Z.to_nat (dstSize - srcSize)) tnul))
      as [Hlen Hrest].
    { rewrite length_app, length_take, length_replicate. lia. }
    split; [done|]. split; [done|]. intros Hone.
    rewrite Z.min_l by lia.
    replace (Z.to_nat (dstSize - srcSize))
      with (S (Z.to_nat (dstSize - srcSize - 1))) by lia.
    simpl. rewrite <- app_assoc. simpl. rewrite c_str_app_nul.
    split; [done|]. apply Hshort. lia.
  - destruct (Z.eqb_spec dstSize 0) as [->|Hpos].
    { destruct (Hframe []) as [Hlen Hrest]; [done|].
      split; [done|]. split; [done|]. lia. }
    destruct (Hframe (take (Z.to_nat (dstSize - 1)) s ++ [tnul]))
      as [Hlen Hrest].
    { rewrite length_app, length_take. simpl. lia. }
    split; [done|]. split; [done|]. intros Hone.
    rewrite Z.min_r by lia.
    rewrite <- app_assoc. simpl. rewrite c_str_app_nul.
    split; [done|]. apply Hshort. lia.
Qed.
End CopyImage.

(** X1.  The string a caller reads from the buffer after a copy into a
    capacity of at least one character is the source's string cut to at
    most [dstSize - 1] characters, so it always ends within the capacity. *)
Theorem StringCopyBuffer_reads_as_source_prefix
    {TChar : Type} `{!TCharT TChar} (d s : list TChar) (dstSize srcSize : Z)
    (Hdst : 1 ≤ dstSize ≤ length d) (Hsrc : 0 ≤ srcSize ≤ length s) :
  ∃ hr copied d',
    StringCopyBuffer (Some d) dstSize (Some s) srcSize
    = (hr, copied, Some d') ∧
    c_str d' = c_str (take (Z.to_nat (Z.min srcSize (dstSize - 1))) s) ∧
    Z.of_nat (length (c_str d')) < dstSize.
Proof.
  destruct (StringCopyBuffer_safe d s dstSize srcSize)
    as (hr & copied & d' & Hcopy & _ & _ & Hstr); [lia|lia|].
  exists hr, copied, d'. split; [done|]. apply Hstr. lia.
Qed.

(** X2.  What a copy leaves within the capacity, its result code and its
    copied count do not depend on what the destination held before. *)
Theorem StringCopyBuffer_ignores_stale_contents
    {TChar : Type} `{!TCharT TChar} (d1 d2 s : list TChar)
    (dstSize srcSize : Z)
    (Hdst1 : 0 ≤ dstSize ≤ length d1) (Hdst2 : dstSize ≤ length d2)
    (Hsrc : 0 ≤ srcSize ≤ length s) :
  ∃ hr copied body,
    Z.of_nat (length body) = dstSize ∧
    StringCopyBuffer (Some d1) dstSize (Some s) srcSize
    = (hr, copied, Some (body ++ drop (Z.to_nat dstSize) d1)) ∧
    StringCopyBuffer (Some d2) dstSize (Some s) srcSize
    = (hr, copied, Some (body ++ drop (Z.to_nat dstSize) d2)).
Proof.
  rewrite !StringCopyBuffer_image by lia. cbv zeta.
  eexists _, _, _. split; [|split; reflexivity].
  destruct (Z.ltb_spec srcSize dstSize) as [Hlt|Hge].
  - rewrite length_app, length_take, length_replicate. lia.
  - destruct (Z.eqb_spec dstSize 0) as [->|Hpos]; [done|].
    rewrite length_app, length_take. simpl. lia.
Qed.

(** X3.  Between valid buffers the copy returns [S_OK] or
    [STRSAFE_E_INSUFFICIENT_BUFFER].  The latter only for a source that is
    not shorter than a capacity of at least one character, with the whole
    capacity counted as copied; [S_OK] into a capacity of at least one
    character means that the source arrived whole.  A capacity of zero gives
    [S_OK] with nothing copied and the destination as it was. *)
Theorem StringCopyBuffer_result_code
    {TChar : Type} `{!TCharT TChar} (d s : list TChar) (dstSize srcSize : Z)
    (Hdst : 0 ≤ dstSize ≤ length d) (Hsrc : 0 ≤ srcSize ≤ length s) :
  ∃ hr copied d',
    StringCopyBuffer (Some d) dstSize (Some s) srcSize
    = (hr, copied, Some d') ∧
    (hr = S_OK ∨ hr = STRSAFE_E_INSUFFICIENT_BUFFER) ∧
    (hr = STRSAFE_E_INSUFFICIENT_BUFFER →
     1 ≤ dstSize ≤ srcSize ∧ copied = dstSize) ∧
    (hr = S_OK → 1 ≤ dstSize →
     srcSize ≤ dstSize ∧ copied = srcSize ∧
     take (Z.to_nat srcSize) d' = take (Z.to_nat srcSize) s) ∧
    (dstSize = 0 → hr = S_OK ∧ copied = 0 ∧ d' = d).
Proof.
  rewrite StringCopyBuffer_image by lia. cbv zeta.
  eexists _, _, _. split; [done|].
  destruct (Z.ltb_spec srcSize dstSize) as [Hlt|Hge]; simpl.
  { split; [by left|]. split; [done|]. split; [|lia].
    intros _ _. split; [lia|]. split; [lia|].
    rewrite <- app_assoc. apply take_app_length'.
    rewrite length_take. lia. }
  destruct (Z.eqb_spec dstSize 0) as [->|Hpos]; simpl.
  { split; [by left|]. split; [done|]. split; [lia|].
    intros _. split; [done|]. split; [lia|done]. }
  case_bool_decide as Hfit.
  - destruct Hfit as [<- Hlast].
    split; [by left|]. split; [done|]. split; [|lia].
    intros _ _. split; [lia|]. split; [lia|].
    replace (Z.to_nat dstSize) with (S (Z.to_nat (dstSize - 1))) at 1 3 by lia.
    rewrite (take_S_r _ _ _ Hlast).
    apply take_app_length'. rewrite length_app, length_take. simpl. lia.
  - split; [by right|]. split; [|split; [done|lia]].
    intros _. split; lia.
Qed.

(** X4.  [StringLength] succeeds exactly for a non-null string that ends
    within [srcMaxSize] characters, [srcMaxSize] being at most
    [STRSAFE_MAX_CCH]; the length is then the string's length, and 0 in
    every other case. *)
Theorem StringLength_outcome
    {TChar : Type} `{!TCharT TChar} (src : option (list TChar))
    (srcMaxSize : Z) (Hmax : 0 ≤ srcMaxSize) :
  StringLength src srcMaxSize
  = match src with
    | Some s =>
        if decide (Z.of_nat (length (c_str s)) < srcMaxSize ≤ STRSAFE_MAX_CCH)
        then (S_OK, Z.of_nat (length (c_str s)))
        else (STRSAFE_E_INVALID_PARAMETER, 0)
    | None => (STRSAFE_E_INVALID_PARAMETER, 0)
    end.
Proof.
  destruct src as [s|]; [|done]. simpl. by apply StringCchLength_spec.
Qed.

(** X13.  What a copy leaves in a capacity of at least one character (and
    at most [STRSAFE_MAX_CCH]) can be measured by [StringLength] within the
    same capacity: the measurement succeeds, and the length is at most the
    copied count. *)
Theorem StringLength_after_StringCopyBuffer
    {TChar : Type} `{!TCharT TChar} (d s : list TChar) (dstSize srcSize : Z)
    (Hdst : 1 ≤ dstSize ≤ length d) (Hmax : dstSize ≤ STRSAFE_MAX_CCH)
    (Hsrc : 0 ≤ srcSize ≤ length s) :
  ∃ hr copied d',
    StringCopyBuffer (Some d) dstSize (Some s) srcSize
    = (hr, copied, Some d') ∧
    StringLength (Some d') dstSize = (S_OK, Z.of_nat (length (c_str d'))) ∧
    Z.of_nat (length (c_str d')) ≤ copied.
Proof.
  destruct (StringCopyBuffer_safe d s dstSize srcSize)
    as (hr & copied & d' & Hcopy & _ & _ & Hstr); [lia|lia|].
  destruct Hstr as [Hprefix Hshort]; [lia|].
  exists hr, copied, d'. split; [done|]. split.
  - simpl. rewrite StringCchLength_spec by lia. by rewrite decide_True.
  - rewrite StringCopyBuffer_image in Hcopy by lia.
    injection Hcopy as _ <- _.
    pose proof (c_str_length_le
                  (take (Z.to_nat (Z.min srcSize (dstSize - 1))) s)) as Hle.
    rewrite <- Hprefix, length_take in Hle. lia.
Qed.

(** * Further properties of the handlers *)

Section HandlerSafety.
Context {TChar : Type} `{!TCharT TChar}.
Context {String : Type} `{Countable String}.
Context {Disk : Type} `{!Collaborators TChar String Disk}.

Local Abbreviation Redirector := (RedirectorInterface TChar String Disk).
Local Abbreviation LPCTSTR := (option (list TChar)).
Implicit Types (r : Redirector) (o : ConfigObject String).
Implicit Types (buf file app key dflt : list TChar).

(** The measured length of a default never exceeds what is at the
    pointer. *)
Lemma StringCchLength_bounds dflt cchMax :
  0 ≤ cchMax →
  0 ≤ (StringCchLength dflt cchMax).2 ≤ length dflt.
Proof.
  intros Hmax. rewrite StringCchLength_spec by done.
  pose proof (c_str_length_le dflt).
  case_decide; simpl; lia.
Qed.

(** X5.  Whatever its arguments, [GetStringT] leaves the caller's buffer at
    its size and changes nothing past the capacity; a call that fails its
    validation leaves the buffer as it was, and every other call leaves in
    it a string that ends within the capacity. *)
Theorem GetStringT_never_overruns
    (appName keyName defaultValue lpFileName : LPCTSTR) buf nSize r
    (Hbuf : 0 ≤ nSize ≤ length buf) :
  ∃ result buffer r',
    GetStringT appName keyName defaultValue (Some buf) nSize lpFileName r
    = (result, Some buffer, r') ∧
    length buffer = length buf ∧
    drop (Z.to_nat nSize) buffer = drop (Z.to_nat nSize) buf ∧
    (lpFileName = None ∨ nSize < 2 → buffer = buf) ∧
    (lpFileName ≠ None → 2 ≤ nSize →
     Z.of_nat (length (c_str buffer)) < nSize).
Proof.
  unfold GetStringT.
  destruct lpFileName as [file|]; [|by eexists _, _, _; repeat split; eauto].
  simpl. destruct (Z.ltb_spec nSize 2) as [Hsmall|Hsize].
  { eexists _, _, _. repeat split; eauto. lia. }
  destruct (GetOrLoadFile _ _) as [[p o] r1].
  assert (∀ (s : list TChar) srcSize (result : HRESULT → Z),
            0 ≤ srcSize ≤ length s →
            ∃ res buffer r',
              (let '(hr, _, buffer) :=
                 StringCopyBuffer (Some buf) nSize (Some s) srcSize in
               (result hr, buffer, r1))
              = (res, Some buffer, r') ∧
              length buffer = length buf ∧
              drop (Z.to_nat nSize) buffer = drop (Z.to_nat nSize) buf ∧
              (Some file = None ∨ nSize < 2 → buffer = buf) ∧
              (Some file ≠ None → 2 ≤ nSize →
               Z.of_nat (length (c_str buffer)) < nSize)) as Hcopy.
  { intros s srcSize result Hsrc.
    destruct (StringCopyBuffer_safe buf s nSize srcSize)
      as (hr & copied & d' & -> & Hlen & Hrest & Hstr); [done|done|].
    eexists _, d', _. repeat split; try done.
    - intros [?|?]; [done|lia].
    - intros _ _. apply Hstr. lia. }
  destruct appName as [app|].
  - destruct keyName as [key|].
    + destruct (QueryValue _ _ _) as [value|].
      * apply (Hcopy _ _ (λ hr, to_DWORD (if hr =? STRSAFE_E_INSUFFICIENT_BUFFER
                                          then dword_sub nSize 1 else _))).
        lia.
      * destruct defaultValue as [dflt|].
        -- simpl. pose proof (StringCchLength_bounds dflt nSize ltac:(lia)).
           destruct (StringCchLength dflt nSize) as [hr0 len]. simpl in *.
           by apply (Hcopy _ _ (λ hr, to_DWORD
                                  (if hr =? STRSAFE_E_INSUFFICIENT_BUFFER
                                   then dword_sub nSize 1 else len))).
        -- apply (Hcopy [tnul] 1 (λ _, to_DWORD 0)). simpl. lia.
    + destruct (GetKeyNamesZSSTRZZ _ _ _) as [[keys truncated] count].
      apply (Hcopy _ _ (λ hr, to_DWORD (enum_result hr truncated _ nSize))).
      lia.
  - destruct (GetSectionNamesZSSTRZZ _ _) as [[sections truncated] count].
    apply (Hcopy _ _ (λ hr, to_DWORD (enum_result hr truncated _ nSize))).
    lia.
Qed.

(** X6.  The same for [GetSectionT]. *)
Theorem GetSectionT_never_overruns
    (appName lpFileName : LPCTSTR) buf nSize r
    (Hbuf : 0 ≤ nSize ≤ length buf) :
  ∃ result buffer r',
    GetSectionT appName (Some buf) nSize lpFileName r
    = (result, Some buffer, r') ∧
    length buffer = length buf ∧
    drop (Z.to_nat nSize) buffer = drop (Z.to_nat nSize) buf ∧
    (lpFileName = None ∨ appName = None ∨ nSize < 2 → buffer = buf) ∧
    (lpFileName ≠ None → appName ≠ None → 2 ≤ nSize →
     Z.of_nat (length (c_str buffer)) < nSize).
Proof.
  unfold GetSectionT.
  destruct lpFileName as [file|]; [|by eexists _, _, _; repeat split; eauto].
  destruct appName as [app|]; [|by eexists _, _, _; repeat split; eauto].
  simpl. destruct (Z.ltb_spec nSize 2) as [Hsmall|Hsize].
  { eexists _, _, _. repeat split; eauto. lia. }
  destruct (GetOrLoadFile _ _) as [[p o] r1].
  destruct (CreateZSSTRZZ _ _ _) as [[keyValuePairs truncated] count].
  destruct (StringCopyBuffer_safe buf keyValuePairs nSize
              (Z.of_nat (length keyValuePairs)))
    as (hr & copied & d' & -> & Hlen & Hrest & Hstr); [done|lia|].
  eexists _, d', _. repeat split; try done.
  - intros [?|[?|?]]; [done|done|lia].
  - intros _ _ _. apply Hstr. lia.
Qed.
End HandlerSafety.

Section HandlerResults.
Context {TChar : Type} `{!TCharT TChar}.
Context {String : Type} `{Countable String}.
Context {Disk : Type} `{!Collaborators TChar String Disk}.

Local Abbreviation Redirector := (RedirectorInterface TChar String Disk).
Local Abbreviation LPCTSTR := (option (list TChar)).
Implicit Types (r : Redirector) (o : ConfigObject String).
Implicit Types (buf file app key dflt : list TChar).

Lemma c_str_nul_head (rest : list TChar) : c_str (tnul :: rest) = [].
Proof. simpl. by rewrite decide_True. Qed.

Ltac give_buffer :=
  match goal with |- ∃ b, (_, Some ?x, _) = _ ∧ _ => exists x end.

(** X7.  A value lookup returns the length of the string it leaves in the
    buffer, and that is less than the capacity: the stored value cut to
    [nSize - 1] characters when it holds no NUL character; else the default
    when it ends within the capacity and the capacity is at most
    [STRSAFE_MAX_CCH]; else the empty string. *)
Theorem GetStringT_returns_string_length
    app key (defaultValue : LPCTSTR) buf nSize file r p o r'
    (Hsize : 2 ≤ nSize < 2 ^ 32) (Hbuf : nSize ≤ length buf)
    (Hentry : GetOrLoadFile (EncodingTo (c_str file)) r = (p, o, r'))
    (Hfree :
       ∀ value,
         QueryValue (EncodingTo (c_str app)) (EncodingTo (c_str key)) (m_INI o)
         = Some value →
         tnul ∉ EncodingFrom value) :
  ∃ buffer,
    GetStringT (Some app) (Some key) defaultValue (Some buf) nSize (Some file) r
    = (Z.of_nat (length (c_str buffer)), Some buffer, r') ∧
    Z.of_nat (length (c_str buffer)) < nSize ∧
    c_str buffer
    = match QueryValue (EncodingTo (c_str app)) (EncodingTo (c_str key))
              (m_INI o) with
      | Some value => take (Z.to_nat (nSize - 1)) (EncodingFrom value)
      | None =>
          match defaultValue with
          | Some dflt =>
              if decide (Z.of_nat (length (c_str dflt)) < nSize
                         ≤ STRSAFE_MAX_CCH)
              then c_str dflt else []
          | None => []
          end
      end.
Proof.
  destruct (QueryValue _ _ _) as [value|] eqn:Hvalue.
  - specialize (Hfree value eq_refl).
    rewrite (GetStringT_found _ _ _ _ _ _ _ _ _ _ value (proj1 Hsize) Hentry)
      by done.
    cbv zeta. set (v := EncodingFrom value) in *.
    destruct (Z.lt_ge_cases (Z.of_nat (length v)) nSize) as [Hlt|Hge].
    + rewrite StringCopyBuffer_room by lia.
      assert ((S_OK =? STRSAFE_E_INSUFFICIENT_BUFFER) = false) as -> by done.
      rewrite to_DWORD_small by lia.
      rewrite Nat2Z.id, firstn_all.
      replace (Z.to_nat (nSize - length v))
        with (S (Z.to_nat (nSize - length v - 1))) by lia.
      simpl. give_buffer. rewrite c_str_app_nul_free by done.
      split; [done|]. split; [done|].
      by rewrite take_ge by lia.
    + destruct (StringCopyBuffer_full buf v nSize (Z.of_nat (length v)))
        as (hr & -> & Hhr); [lia|lia|].
      rewrite bool_decide_eq_false_2 in Hhr.
      2:{ intros [_ Hlast]. apply Hfree.
          by apply list_elem_of_lookup_2 in Hlast. }
      subst hr. rewrite Z.eqb_refl, dword_sub_small, to_DWORD_small by lia.
      assert (tnul ∉ take (Z.to_nat (nSize - 1)) v) as Hprefix.
      { intros Hin. apply Hfree. by apply (subseteq_take (Z.to_nat (nSize - 1))). }
      give_buffer. simpl. rewrite c_str_app_nul_free by done.
      rewrite length_take, Nat.min_l, Z2Nat.id by lia.
      split; [done|]. split; [lia|done].
  - destruct defaultValue as [dflt|].
    + rewrite (GetStringT_default _ _ _ _ _ _ _ _ _ _ (proj1 Hsize) Hentry)
        by done.
      rewrite StringCchLength_spec by lia.
      pose proof (c_str_length_le dflt).
      case_decide as Hshort.
      * rewrite StringCopyBuffer_room by lia.
        assert ((S_OK =? STRSAFE_E_INSUFFICIENT_BUFFER) = false) as -> by done.
        rewrite to_DWORD_small by lia.
        rewrite Nat2Z.id, c_str_prefix.
        replace (Z.to_nat (nSize - length (c_str dflt)))
          with (S (Z.to_nat (nSize - length (c_str dflt) - 1))) by lia.
        simpl. give_buffer. rewrite c_str_app_nul, c_str_idemp.
        split; [done|]. split; [lia|done].
      * rewrite StringCopyBuffer_room by lia.
        replace (Z.to_nat (nSize - 0)) with (S (Z.to_nat (nSize - 1))) by lia.
        give_buffer. cbn [replicate Datatypes.app]. rewrite c_str_app_nul.
        split; [done|]. split; [simpl; lia|done].
    + rewrite (GetStringT_no_default _ _ _ _ _ _ _ _ _ (proj1 Hsize) Hbuf
                 Hentry) by done.
      give_buffer.
      assert (replicate (Z.to_nat nSize) tnul
              = tnul :: replicate (Z.to_nat (nSize - 1)) tnul) as ->.
      { by replace (Z.to_nat nSize) with (S (Z.to_nat (nSize - 1))) by lia. }
      cbn [Datatypes.app]. rewrite c_str_nul_head.
      split; [done|]. split; [simpl; lia|done].
Qed.
(** The tail the three enumerations share: a list that ends in NUL and
    fits the capacity is copied whole, and the result is its length without
    the final NUL, or [nSize - 2] for a truncated list. *)
Lemma enumeration_tail buf (body : list TChar) (truncated : bool) nSize :
  2 ≤ nSize < 2 ^ 32 → nSize ≤ length buf →
  Z.of_nat (length body) + 1 ≤ nSize →
  ∃ hr copied,
    StringCopyBuffer (Some buf) nSize (Some (body ++ [tnul]))
      (Z.of_nat (length (body ++ [tnul])))
    = (hr, copied,
       Some ((body ++ [tnul])
             ++ replicate (Z.to_nat (nSize - length (body ++ [tnul]))) tnul
             ++ drop (Z.to_nat nSize) buf)) ∧
    to_DWORD (enum_result hr truncated (Z.of_nat (length (body ++ [tnul])))
                nSize)
    = if truncated then nSize - 2 else Z.of_nat (length body).
Proof.
  intros Hsize Hbuf Hfits.
  rewrite StringCopyBuffer_terminated by lia.
  eexists _, _. split; [done|].
  unfold enum_result. simpl. rewrite length_app. simpl.
  destruct truncated.
  - rewrite dword_sub_small, to_DWORD_small by lia. done.
  - rewrite size_sub_small, to_DWORD_small by lia. lia.
Qed.

(** X8.  An enumeration of sections or keys whose list, as built, ends in
    NUL and fits the capacity reaches the buffer whole, followed by zeros up
    to the capacity; the call returns the length of the list without its
    final NUL, or [nSize - 2] when the list was truncated. *)
Theorem GetStringT_enumeration_delivered
    (appName keyName defaultValue : LPCTSTR) buf nSize file r p o r'
    body truncated count
    (Hmode : appName = None ∨ keyName = None)
    (Hsize : 2 ≤ nSize < 2 ^ 32) (Hbuf : nSize ≤ length buf)
    (Hentry : GetOrLoadFile (EncodingTo (c_str file)) r = (p, o, r'))
    (Hlist :
       CreateZSSTRZZ (λ name, Some (EncodingFrom name))
         (enumerated_names appName (m_INI o)) nSize
       = (body ++ [tnul], truncated, count))
    (Hfits : Z.of_nat (length body) + 1 ≤ nSize) :
  GetStringT appName keyName defaultValue (Some buf) nSize (Some file) r
  = (if truncated then nSize - 2 else Z.of_nat (length body),
     Some ((body ++ [tnul])
           ++ replicate (Z.to_nat (nSize - length (body ++ [tnul]))) tnul
           ++ drop (Z.to_nat nSize) buf),
     r').
Proof.
  rewrite (GetStringT_enumerates _ _ _ _ _ _ _ _ _ _ Hmode (proj1 Hsize)
             Hentry).
  rewrite Hlist. cbv beta iota zeta.
  destruct (enumeration_tail buf body truncated nSize)
    as (hr & copied & -> & ->); done.
Qed.

(** X9.  [GetSectionT] on a named section, when the block of [key=value]
    items, as built, ends in NUL and fits the capacity: the block reaches
    the buffer whole, followed by zeros up to the capacity, and the call
    returns its length without the final NUL, or [nSize - 2] when the block
    was truncated. *)
Theorem GetSectionT_block_delivered
    app buf nSize file r p o r' body truncated count
    (Hsize : 2 ≤ nSize < 2 ^ 32) (Hbuf : nSize ≤ length buf)
    (Hentry : GetOrLoadFile (EncodingTo (c_str file)) r = (p, o, r'))
    (Hblock :
       CreateZSSTRZZ (key_value_pair (m_INI o) (EncodingTo (c_str app)))
         (GetKeyNames (EncodingTo (c_str app)) (m_INI o)) nSize
       = (body ++ [tnul], truncated, count))
    (Hfits : Z.of_nat (length body) + 1 ≤ nSize) :
  GetSectionT (Some app) (Some buf) nSize (Some file) r
  = (if truncated then nSize - 2 else Z.of_nat (length body),
     Some ((body ++ [tnul])
           ++ replicate (Z.to_nat (nSize - length (body ++ [tnul]))) tnul
           ++ drop (Z.to_nat nSize) buf),
     r').
Proof.
  unfold GetSectionT. simpl.
  destruct (Z.ltb_spec nSize 2) as [?|_]; [lia|].
  rewrite Hentry, Hblock. cbv beta iota zeta.
  destruct (enumeration_tail buf body truncated nSize)
    as (hr & copied & -> & ->); done.
Qed.

Lemma to_INT_to_DWORD i : - 2 ^ 31 ≤ i < 2 ^ 31 → to_INT (to_DWORD i) = i.
Proof.
  intros Hi. unfold to_INT, to_DWORD.
  destruct (Z.lt_ge_cases i 0) as [Hneg|Hpos].
  - replace (i mod 2 ^ 32) with (i + 2 ^ 32)
      by (apply Z.mod_unique with (-1); lia).
    destruct (Z.ltb_spec (i + 2 ^ 32) (2 ^ 31)); lia.
  - rewrite Z.mod_small by lia.
    destruct (Z.ltb_spec i (2 ^ 31)); lia.
Qed.

(** X10.  [GetIntT] returns an integer that, read back as an [INT], is the
    integer [ToInteger] gave for the stored value, and the caller's default
    in every other case: a null file path ([ERROR_FILE_NOT_FOUND]), a null
    section or key ([ERROR_INVALID_PARAMETER], the file is not loaded), a
    missing key, or a value that does not parse. *)
Theorem GetIntT_outcomes
    app key (defaultValue : Z) file r p o r'
    (Hdefault : - 2 ^ 31 ≤ defaultValue < 2 ^ 31)
    (Hentry : GetOrLoadFile (EncodingTo (c_str file)) r = (p, o, r'))
    (Hparse :
       ∀ value i,
         QueryValue (EncodingTo (c_str app)) (EncodingTo (c_str key)) (m_INI o)
         = Some value →
         ToInteger value = Some i → - 2 ^ 31 ≤ i < 2 ^ 31) :
  (∀ appName keyName : LPCTSTR,
     ∃ u, GetIntT appName keyName defaultValue None r
          = (u, SetLastError ERROR_FILE_NOT_FOUND r) ∧
          to_INT u = defaultValue) ∧
  (∀ appName keyName : LPCTSTR,
     appName = None ∨ keyName = None →
     ∃ u, GetIntT appName keyName defaultValue (Some file) r
          = (u, SetLastError ERROR_INVALID_PARAMETER r) ∧
          to_INT u = defaultValue) ∧
  ∃ u, GetIntT (Some app) (Some key) defaultValue (Some file) r = (u, r') ∧
       to_INT u
       = match QueryValue (EncodingTo (c_str app)) (EncodingTo (c_str key))
                 (m_INI o) with
         | Some value => default defaultValue (ToInteger value)
         | None => defaultValue
         end.
Proof.
  split; [|split].
  - intros appName keyName. eexists. split; [done|].
    by apply to_INT_to_DWORD.
  - intros appName keyName Hnull. exists (to_DWORD defaultValue).
    split; [|by apply to_INT_to_DWORD].
    unfold GetIntT. destruct appName, keyName; try done. by destruct Hnull.
  - unfold GetIntT. rewrite Hentry.
    destruct (QueryValue _ _ _) as [value|].
    + destruct (ToInteger value) as [i|] eqn:Hi; simpl.
      * eexists. split; [done|]. apply to_INT_to_DWORD. by eapply Hparse.
      * eexists. split; [done|]. by apply to_INT_to_DWORD.
    + eexists. split; [done|]. by apply to_INT_to_DWORD.
Qed.

(** X11.  The three read handlers leave the redirector as [GetOrLoadFile]
    left it, or with only the last error set: they never write an entry
    back, save a file or call the original function. *)
Theorem read_handlers_leave_redirector
    (appName keyName defaultValue lpReturnedString : LPCTSTR)
    (intDefault nSize : Z) file r :
  let loaded := (GetOrLoadFile (EncodingTo (c_str file)) r).2 in
  let unchanged (r2 : Redirector) :=
    r2 = loaded ∨ ∃ code, r2 = SetLastError code r in
  unchanged (GetStringT appName keyName defaultValue lpReturnedString nSize
               (Some file) r).2 ∧
  unchanged (GetSectionT appName lpReturnedString nSize (Some file) r).2 ∧
  unchanged (GetIntT appName keyName intDefault (Some file) r).2 ∧
  (∀ r2, unchanged r2 →
         m_Events r2 = m_Events r ∧ m_Disk r2 = m_Disk r ∧
         ∀ q entry, m_INIMap r !! q = Some entry →
                    m_INIMap r2 !! q = Some entry).
Proof.
  intros loaded unchanged. subst unchanged loaded. cbv beta.
  destruct (GetOrLoadFile (EncodingTo (c_str file)) r) as [[p o] r1] eqn:He.
  simpl. split; [|split; [|split]].
  - unfold GetStringT.
    destruct (is_null lpReturnedString || (nSize <? 2)); [by right; eexists|].
    rewrite He.
    destruct appName as [app|]; [destruct keyName as [key|]|].
    + destruct (QueryValue _ _ _) as [value|];
        [|destruct defaultValue as [dflt|]].
      * destruct (StringCopyBuffer _ _ _ _) as [[hr c] b]. by left.
      * destruct (StringLength _ _) as [hr0 len].
        destruct (StringCopyBuffer _ _ _ _) as [[hr c] b]. by left.
      * destruct (StringCopyBuffer _ _ _ _) as [[hr c] b]. by left.
    + destruct (GetKeyNamesZSSTRZZ _ _ _) as [[l t] n].
      destruct (StringCopyBuffer _ _ _ _) as [[hr c] b]. by left.
    + destruct (GetSectionNamesZSSTRZZ _ _) as [[l t] n].
      destruct (StringCopyBuffer _ _ _ _) as [[hr c] b]. by left.
  - unfold GetSectionT.
    destruct appName as [app|]; [|by right; eexists].
    destruct (is_null lpReturnedString || (nSize <? 2)); [by right; eexists|].
    rewrite He.
    destruct (CreateZSSTRZZ _ _ _) as [[l t] n].
    destruct (StringCopyBuffer _ _ _ _) as [[hr c] b]. by left.
  - unfold GetIntT.
    destruct appName as [app|]; [destruct keyName as [key|]|];
      [|by right; eexists..].
    rewrite He.
    destruct (QueryValue _ _ _) as [value|]; [|by left].
    destruct (ToInteger value); by left.
  - pose proof (GetOrLoadFile_entry _ _ _ _ _ He)
      as (Hp & Ho & Hother & _ & _ & Hdisk & _ & Hevents).
    intros r2 [->|[code ->]]; [|done].
    split; [done|]. split; [done|].
    intros q entry Hq. destruct (decide (q = p)) as [->|Hne].
    + rewrite Hp in Hq. apply GetOrLoadFile_cached in Hq.
      rewrite Hq in He. by injection He as _ <- _.
    + by rewrite Hother.
Qed.
(** X12.  The in-memory write fails without a trace in two cases.  With a
    null section name it returns false with [ERROR_INVALID_PARAMETER] and
    the file is not even loaded.  When the operation the arguments select
    reports failure, such as the deletion of a key or section that is not
    there, it returns false, [OnWrite] is not called, so the dirty flag of
    the entry stays, and no event, disk change or last error is recorded. *)
Theorem WriteStringToMemoryFile_failures
    app (keyName lpString : LPCTSTR) file r p o r0
    (Hentry : GetOrLoadFile (EncodingTo (c_str file)) r = (p, o, r0))
    (Hfailed :
       match keyName, lpString with
       | None, _ => (DeleteSection (EncodingTo (c_str app)) (m_INI o)).1
       | Some key, None =>
           (DeleteKey (EncodingTo (c_str app)) (EncodingTo (c_str key))
              (m_INI o)).1
       | Some key, Some str =>
           (SetValue (StringFromTChar (c_str app))
              (StringFromTChar (c_str key)) (EncodingTo (c_str str))
              (m_INI o)).1.1
       end = false) :
  WriteStringToMemoryFile None keyName lpString (Some file) r
  = (false, SetLastError ERROR_INVALID_PARAMETER r) ∧
  ∃ o1 r1,
    WriteStringToMemoryFile (Some app) keyName lpString (Some file) r
    = (false, r1) ∧
    m_INIMap r1 !! p = Some o1 ∧
    m_IsChanged o1 = m_IsChanged o ∧
    m_Events r1 = m_Events r ∧ m_Disk r1 = m_Disk r ∧
    m_LastError r1 = m_LastError r.
Proof.
  split; [done|].
  pose proof (GetOrLoadFile_entry _ _ _ _ _ Hentry)
    as (_ & _ & _ & _ & _ & Hdisk & Herror & Hevents).
  unfold WriteStringToMemoryFile. rewrite Hentry.
  destruct keyName as [key|]; [destruct lpString as [str|]|].
  - destruct (SetValue _ _ _ _) as [[ok isSameData] ini']. simpl in Hfailed.
    subst ok. eexists _, _. split; [done|]. simpl.
    by rewrite lookup_insert_eq.
  - destruct (DeleteKey _ _ _) as [deleted ini']. simpl in Hfailed.
    subst deleted. eexists _, _. split; [done|]. simpl.
    by rewrite lookup_insert_eq.
  - destruct (DeleteSection _ _) as [deleted ini']. simpl in Hfailed.
    subst deleted. eexists _, _. split; [done|]. simpl.
    by rewrite lookup_insert_eq.
Qed.
End HandlerResults.

(** * The properties on the sample platform *)

Section Runs.
Import Sample.

Ltac run := vm_compute; repeat split; (reflexivity || (intros; discriminate)).

(** The copy on small buffers. *)
Example StringCopyBuffer_room_to_spare :
  StringCopyBuffer (Some (stale 4)) 3 (Some (sz "ab")) 2
  = (S_OK, 2, Some [Byte.x61; Byte.x62; Byte.x00; Byte.xcc]).
Proof. reflexivity. Qed.

Example StringCopyBuffer_exact_fit :
  StringCopyBuffer (Some (stale 3)) 3 (Some [Byte.x61; Byte.x62; Byte.x00]) 3
  = (S_OK, 3, Some [Byte.x61; Byte.x62; Byte.x00]).
Proof. reflexivity. Qed.

Example StringCopyBuffer_wide_truncates :
  StringCopyBuffer
    (Some [(Byte.xcc, Byte.xcc); (Byte.xcc, Byte.xcc)]) 2
    (Some [(Byte.x61, Byte.x00); (Byte.x62, Byte.x00); (Byte.x63, Byte.x00)]) 3
  = (STRSAFE_E_INSUFFICIENT_BUFFER, 2,
     Some [(Byte.x61, Byte.x00); (Byte.x00, Byte.x00)]).
Proof. reflexivity. Qed.

Example StringLength_measures :
  StringLength (Some (sz "abc")) 4 = (S_OK, 3) ∧
  StringLength (Some (sz "abc")) 3 = (STRSAFE_E_INVALID_PARAMETER, 0).
Proof. split; reflexivity. Qed.

(** Reads and writes on [game.ini]. *)
Example GetStringT_reads_value :
  (GetStringT (Some (sz "Display")) (Some (sz "Mode")) None (Some (stale 6)) 6
     (Some (sz "game.ini")) cold).1
  = (4, Some [Byte.x66; Byte.x75; Byte.x6c; Byte.x6c; Byte.x00; Byte.x00]).
Proof. reflexivity. Qed.

Example GetStringT_lists_keys :
  (GetStringT (Some (sz "Display")) None None (Some (stale 12)) 12
     (Some (sz "game.ini")) cold).1
  = (11, Some (sz "Width" ++ [Byte.x00] ++ sz "Mode" ++ [Byte.x00; Byte.x00])).
Proof. reflexivity. Qed.

Example GetIntT_reads_integer :
  (GetIntT (Some (sz "Display")) (Some (sz "Width")) 7 (Some (sz "game.ini"))
     cold).1 = 1920 ∧
  (GetIntT (Some (sz "Display")) (Some (sz "Mode")) 7 (Some (sz "game.ini"))
     cold).1 = 7.
Proof. split; reflexivity. Qed.

Example WriteStringT_saves_on_write :
  m_Events
    (WriteStringT (Some (sz "Display")) (Some (sz "Width")) (Some (sz "800"))
       (Some (sz "game.ini")) cold).2
  = [EvSaveFile "game.ini" true].
Proof. reflexivity. Qed.

(** C1 on a source longer than the capacity. *)
Lemma StringCopyBuffer_three_way_branch_witness :
  0 ≤ 2 ≤ length (stale 3) ∧ 0 ≤ 3 ≤ length (sz "abc") ∧
  StringCopyBuffer (Some (stale 3)) 2 (Some (sz "abc")) 3
  = (STRSAFE_E_INSUFFICIENT_BUFFER, 2, Some [Byte.x61; Byte.x00; Byte.xcc]).
Proof.
  assert (0 ≤ 2 ≤ length (stale 3)) as Hdst by run.
  assert (0 ≤ 3 ≤ length (sz "abc")) as Hsrc by run.
  split; [exact Hdst|]. split; [exact Hsrc|].
  destruct (StringCopyBuffer_three_way_branch (stale 3) (sz "abc") 2 3
              Hdst Hsrc)
    as (_ & _ & hr & d' & Hcopy & _ & Hrest & _ & _ & _ & Htruncate).
  destruct Htruncate as [Hhr Htake];
    [run|run|intros [Hfit _]; discriminate Hfit|].
  rewrite Hcopy, Hhr, <- (take_drop (Z.to_nat 2) d'), Htake, Hrest.
  reflexivity.
Defined.

(** A stored value that ends in a NUL character and is as long as the
    capacity: the copy is an exact fit and the call returns the capacity. *)
Example GetStringT_exact_fit_returns_capacity :
  QueryValue "S"%string "Tag"%string nul_ini
  = Some (String.string_of_list_byte [Byte.x61; Byte.x00]) ∧
  (GetStringT (Some (sz "S")) (Some (sz "Tag")) None (Some (stale 3)) 2
     (Some (sz "nul.ini")) (fresh false false nul_disk)).1
  = (2, Some [Byte.x61; Byte.x00; Byte.xcc]).
Proof. split; reflexivity. Qed.

(** C2 on [Mode = full] and a capacity of three. *)
Lemma GetStringT_stored_value_witness :
  2 ≤ 3 < 2 ^ 32 ∧ 3 ≤ length (stale 8) ∧
  GetOrLoadFile (EncodingTo (c_str (sz "game.ini"))) cold
  = ("game.ini"%string, game_entry, warm) ∧
  QueryValue (EncodingTo (c_str (sz "Display"))) (EncodingTo (c_str (sz "Mode")))
    (m_INI game_entry)
  = Some "full"%string ∧
  (tnul ∉ EncodingFrom "full"%string) ∧
  ∃ buffer,
    GetStringT (Some (sz "Display")) (Some (sz "Mode")) None (Some (stale 8)) 3
      (Some (sz "game.ini")) cold
    = (2, Some buffer, warm) ∧
    take 3 buffer = [Byte.x66; Byte.x75; Byte.x00].
Proof.
  assert (2 ≤ 3 < 2 ^ 32) as Hsize by run.
  assert (3 ≤ length (stale 8)) as Hbuf by run.
  assert (GetOrLoadFile (EncodingTo (c_str (sz "game.ini"))) cold
          = ("game.ini"%string, game_entry, warm)) as Hentry by reflexivity.
  assert (QueryValue (EncodingTo (c_str (sz "Display")))
            (EncodingTo (c_str (sz "Mode"))) (m_INI game_entry)
          = Some "full"%string) as Hvalue by reflexivity.
  assert (tnul ∉ EncodingFrom "full"%string) as Htext.
  { intros Hin. vm_compute in Hin.
    repeat (apply elem_of_cons in Hin as [Hin|Hin]; [discriminate Hin|]).
    by apply elem_of_nil in Hin. }
  repeat (split; [assumption|]).
  destruct (GetStringT_stored_value (sz "Display") (sz "Mode") None
              (stale 8) 3 (sz "game.ini") cold _ _ _ _ Hsize Hbuf Hentry
              Hvalue Htext)
    as (result & buffer & Hcall & _ & Hlong).
  destruct Hlong as [Hresult Hprefix]; [run|].
  exists buffer. rewrite Hcall, Hresult.
  split; [reflexivity|]. exact Hprefix.
Defined.

(** C6, at the failing input.  [Depth] is not in [game.ini]; with the
    default [abc] and a buffer of capacity 2 the call returns 0 and leaves
    the capacity zero-filled, where the copy rule applied to the default
    gives [a], a NUL and [STRSAFE_E_INSUFFICIENT_BUFFER], for which the
    handler would return [nSize - 1 = 1]. *)
Theorem GetStringT_default_longer_than_buffer :
  QueryValue "Display"%string "Depth"%string game_ini = None ∧
  (GetStringT (Some (sz "Display")) (Some (sz "Depth")) (Some (sz "abc"))
     (Some (stale 3)) 2 (Some (sz "game.ini")) cold).1
  = (0, Some [Byte.x00; Byte.x00; Byte.xcc]) ∧
  StringCopyBuffer (Some (stale 3)) 2 (Some (sz "abc"))
    (Z.of_nat (length (c_str (sz "abc"))))
  = (STRSAFE_E_INSUFFICIENT_BUFFER, 2, Some [Byte.x61; Byte.x00; Byte.xcc]).
Proof. repeat split; reflexivity. Qed.

(** C3, counterexample.  On the platform with the 7-bit converter a write
    of the one-byte value [0xE9] succeeds and the read returns a question
    mark; and a write to the section named [0xE9] succeeds, under the name
    the constructor gives it, where the read looks for the name the
    converter gives it and returns the empty string. *)
Lemma WriteStringT_GetStringT_round_trip_counterexample :
  (WriteStringT (Collaborators0 := SevenBit.collaborators)
     (Some (sz "Display")) (Some (sz "Width")) (Some [Byte.xe9])
     (Some (sz "game.ini")) cold).1 = TRUE ∧
  (GetStringT (Collaborators0 := SevenBit.collaborators)
     (Some (sz "Display")) (Some (sz "Width")) None (Some (stale 4)) 4
     (Some (sz "game.ini"))
     (WriteStringT (Collaborators0 := SevenBit.collaborators)
        (Some (sz "Display")) (Some (sz "Width")) (Some [Byte.xe9])
        (Some (sz "game.ini")) cold).2).1
  = (1, Some [Byte.x3f; Byte.x00; Byte.x00; Byte.x00]) ∧
  (WriteStringT (Collaborators0 := SevenBit.collaborators)
     (Some [Byte.xe9]) (Some (sz "Width")) (Some (sz "800"))
     (Some (sz "game.ini")) cold).1 = TRUE ∧
  (GetStringT (Collaborators0 := SevenBit.collaborators)
     (Some [Byte.xe9]) (Some (sz "Width")) None (Some (stale 4)) 4
     (Some (sz "game.ini"))
     (WriteStringT (Collaborators0 := SevenBit.collaborators)
        (Some [Byte.xe9]) (Some (sz "Width")) (Some (sz "800"))
        (Some (sz "game.ini")) cold).2).1
  = (0, Some [Byte.x00; Byte.x00; Byte.x00; Byte.x00]) ∧
  [Byte.x3f] ≠ [Byte.xe9] ∧ [] ≠ sz "800".
Proof. repeat split; (reflexivity || discriminate). Qed.

(** C3 (amended) on [Width = 800]. *)
Lemma WriteStringT_GetStringT_round_trip_witness :
  EncodingFrom (EncodingTo (c_str (sz "800"))) = c_str (sz "800") ∧
  StringFromTChar (c_str (sz "Display")) = EncodingTo (c_str (sz "Display")) ∧
  StringFromTChar (c_str (sz "Width")) = EncodingTo (c_str (sz "Width")) ∧
  2 ≤ 8 ∧ Z.of_nat (length (c_str (sz "800"))) < 8 < 2 ^ 32 ∧
  8 ≤ length (stale 8) ∧
  ∃ buffer r2,
    GetStringT (Some (sz "Display")) (Some (sz "Width")) None (Some (stale 8)) 8
      (Some (sz "game.ini"))
      (WriteStringT (Some (sz "Display")) (Some (sz "Width")) (Some (sz "800"))
         (Some (sz "game.ini")) cold).2
    = (3, Some buffer, r2) ∧
    take 4 buffer = [Byte.x38; Byte.x30; Byte.x30; Byte.x00].
Proof.
  assert (Z.of_nat (length (c_str (sz "800"))) < 8 < 2 ^ 32) as Hsize by run.
  assert (2 ≤ 8) as Hmin by run.
  assert (8 ≤ length (stale 8)) as Hbuf by run.
  split; [reflexivity|]. split; [reflexivity|]. split; [reflexivity|].
  repeat (split; [assumption|]).
  exact (proj2 (WriteStringT_GetStringT_round_trip (sz "Display") (sz "Width")
                  (sz "800") None (stale 8) 8 (sz "game.ini") cold
                  eq_refl eq_refl eq_refl Hmin Hsize Hbuf)).
Defined.

(** C4 on the deletion of [Width], which leaves [Mode]. *)
Lemma WriteStringToMemoryFile_dispatch_witness :
  GetOrLoadFile (EncodingTo (c_str (sz "game.ini"))) cold
  = ("game.ini"%string, game_entry, warm) ∧
  ∃ o1 r1,
    WriteStringToMemoryFile (Some (sz "Display")) (Some (sz "Width")) None
      (Some (sz "game.ini")) cold
    = (true, r1) ∧
    m_INIMap r1 !! "game.ini"%string = Some o1 ∧
    QueryValue "Display"%string "Width"%string (m_INI o1) = None ∧
    QueryValue "Display"%string "Mode"%string (m_INI o1) = Some "full"%string.
Proof.
  assert (GetOrLoadFile (EncodingTo (c_str (sz "game.ini"))) cold
          = ("game.ini"%string, game_entry, warm)) as Hentry by reflexivity.
  split; [exact Hentry|].
  destruct (WriteStringToMemoryFile_dispatch (sz "Display")
              (Some (sz "Width")) None (sz "game.ini") cold _ _ _ Hentry)
    as (ok & o1 & r1 & Hcall & Ho1 & _ & Hok & Hgone & Hsiblings).
  exists o1, r1.
  assert (ok = true) as -> by (by injection Hok).
  split; [exact Hcall|]. split; [exact Ho1|]. split; [exact Hgone|].
  assert (("Display"%string, "Mode"%string)
          ≠ (EncodingTo (c_str (sz "Display")), EncodingTo (c_str (sz "Width"))))
    as Hne by (intros Heq; vm_compute in Heq; discriminate Heq).
  exact (eq_trans (Hsiblings "Display"%string "Mode"%string Hne) eq_refl).
Defined.

(** C5, counterexample.  With the [NativeWrite] option a write of
    [Width = 1920], the value [game.ini] holds, succeeds in memory, and the
    handler returns the [FALSE] of the original function. *)
Lemma WriteStringT_same_value_counterexample :
  m_NativeWrite native = true ∧
  QueryValue "Display"%string "Width"%string game_ini = Some "1920"%string ∧
  (WriteStringToMemoryFile (Some (sz "Display")) (Some (sz "Width"))
     (Some (sz "1920")) (Some (sz "game.ini")) native).1 = true ∧
  (WriteStringT (Some (sz "Display")) (Some (sz "Width")) (Some (sz "1920"))
     (Some (sz "game.ini")) native).1 = FALSE ∧
  FALSE ≠ TRUE.
Proof. repeat split; (reflexivity || discriminate). Qed.

(** C5 (amended) on [Width = 1920], the value [game.ini] holds, with
    save-on-write. *)
Lemma WriteStringToMemoryFile_same_value_witness :
  GetOrLoadFile (EncodingTo (c_str (sz "game.ini"))) cold
  = ("game.ini"%string, game_entry, warm) ∧
  QueryValue (StringFromTChar (c_str (sz "Display")))
    (StringFromTChar (c_str (sz "Width"))) (m_INI game_entry)
  = Some (EncodingTo (c_str (sz "1920"))) ∧
  WriteStringToMemoryFile (Some (sz "Display")) (Some (sz "Width"))
    (Some (sz "1920")) (Some (sz "game.ini")) cold
  = (true, warm) ∧
  m_Events warm = [] ∧ m_Disk warm = disk ∧
  m_IsChanged <$> m_INIMap warm !! "game.ini"%string = Some false.
Proof.
  assert (GetOrLoadFile (EncodingTo (c_str (sz "game.ini"))) cold
          = ("game.ini"%string, game_entry, warm)) as Hentry by reflexivity.
  assert (QueryValue (StringFromTChar (c_str (sz "Display")))
            (StringFromTChar (c_str (sz "Width"))) (m_INI game_entry)
          = Some (EncodingTo (c_str (sz "1920")))) as Hsame by reflexivity.
  split; [exact Hentry|]. split; [exact Hsame|].
  destruct (WriteStringToMemoryFile_same_value (sz "Display") (sz "Width")
              (sz "1920") (sz "game.ini") cold _ _ _ Hentry Hsame)
    as (Hcall & Ho & _ & Hevents & Hdisk & _).
  split; [exact Hcall|]. split; [exact Hevents|]. split; [exact Hdisk|].
  rewrite Ho. reflexivity.
Defined.

(** C7 with the option on: the in-memory write succeeds, the original
    function fails, and the handler returns [FALSE]. *)
Lemma WriteStringT_native_write_witness :
  m_NativeWrite native = true ∧
  (WriteStringToMemoryFile (Some (sz "Display")) (Some (sz "Width"))
     (Some (sz "800")) (Some (sz "game.ini")) native).1 = true ∧
  (WriteStringT (Some (sz "Display")) (Some (sz "Width")) (Some (sz "800"))
     (Some (sz "game.ini")) native).1 = FALSE ∧
  m_Events
    (WriteStringT (Some (sz "Display")) (Some (sz "Width")) (Some (sz "800"))
       (Some (sz "game.ini")) native).2
  = [EvInvokeTarget (Some (sz "Display")) (Some (sz "Width"))
       (Some (sz "800")) (Some (sz "game.ini"))].
Proof.
  assert (m_NativeWrite native = true) as Hon by reflexivity.
  split; [exact Hon|]. split; [reflexivity|].
  destruct (proj1 (WriteStringT_native_write (Some (sz "Display"))
                     (Some (sz "Width")) (Some (sz "800"))
                     (Some (sz "game.ini")) native) Hon)
    as (Hcall & _ & Hevents).
  split; [by rewrite Hcall|]. rewrite Hevents. reflexivity.
Defined.

(** C8 on the keys of [Display] and a capacity of 8, which holds [Width]
    only. *)
Lemma GetStringT_enumeration_truncated_witness :
  (Some (sz "Display") = None ∨ @None (list Byte.byte) = None) ∧
  2 ≤ 8 < 2 ^ 32 ∧ 8 ≤ length (stale 12) ∧
  GetOrLoadFile (EncodingTo (c_str (sz "game.ini"))) cold
  = ("game.ini"%string, game_entry, warm) ∧
  8 < length (ZSSTR (EncodingFrom <$>
                       enumerated_names (Some (sz "Display"))
                         (m_INI game_entry))
              ++ [tnul]) ∧
  (GetStringT (Some (sz "Display")) None None (Some (stale 12)) 8
     (Some (sz "game.ini")) cold).1.1 = 6.
Proof.
  assert (Some (sz "Display") = None ∨ @None (list Byte.byte) = None) as Hmode
    by (by right).
  assert (2 ≤ 8 < 2 ^ 32) as Hsize by run.
  assert (8 ≤ length (stale 12)) as Hbuf by run.
  assert (GetOrLoadFile (EncodingTo (c_str (sz "game.ini"))) cold
          = ("game.ini"%string, game_entry, warm)) as Hentry by reflexivity.
  assert (8 < length (ZSSTR (EncodingFrom <$>
                               enumerated_names (Some (sz "Display"))
                                 (m_INI game_entry))
                      ++ [tnul])) as Hover by run.
  repeat (split; [assumption|]).
  destruct (GetStringT_enumeration_truncated (Some (sz "Display")) None None
              (stale 12) 8 (sz "game.ini") cold _ _ _ Hmode Hsize Hbuf Hentry
              Hover)
    as (k & name & _ & _ & _ & _ & Hcall).
  rewrite Hcall. reflexivity.
Defined.

(** C9, counterexample.  [GetSectionT] with a file path, a null section
    name and a null buffer of capacity 0 fails with
    [ERROR_INVALID_PARAMETER], not with [ERROR_INSUFFICIENT_BUFFER]; and
    with the [NativeWrite] option [WriteStringT] with a null file path
    returns the [TRUE] of the original function, not false. *)
Lemma handlers_validate_arguments_counterexample :
  GetSectionT None None 0 (Some (sz "game.ini")) cold
  = (0, None, SetLastError ERROR_INVALID_PARAMETER cold) ∧
  m_LastError (GetSectionT None None 0 (Some (sz "game.ini")) cold).2
  ≠ ERROR_INSUFFICIENT_BUFFER ∧
  m_NativeWrite native = true ∧
  (WriteStringT (Collaborators0 := SevenBit.collaborators)
     (Some (sz "Display")) (Some (sz "Width")) (Some (sz "800")) None
     native).1 = TRUE ∧
  TRUE ≠ FALSE.
Proof.
  split; [reflexivity|]. split; [vm_compute; discriminate|].
  repeat split; (reflexivity || discriminate).
Qed.

(** C9 (amended) on a null buffer and on a null file path. *)
Lemma handlers_validate_arguments_witness :
  (@None (list Byte.byte) = None ∨ 0 < 2) ∧
  GetStringT (Some (sz "Display")) (Some (sz "Mode")) None None 0
    (Some (sz "game.ini")) cold
  = (0, None, SetLastError ERROR_INSUFFICIENT_BUFFER cold) ∧
  GetStringT (Some (sz "Display")) (Some (sz "Mode")) None (Some (stale 8)) 8
    None cold
  = (0, Some (stale 8), SetLastError ERROR_FILE_NOT_FOUND cold).
Proof.
  assert (@None (list Byte.byte) = None ∨ 0 < 2) as Hbuffer by (by left).
  split; [exact Hbuffer|].
  destruct (handlers_validate_arguments (Some (sz "Display"))
              (Some (sz "Mode")) None None None 0 0 (sz "game.ini") cold
              Hbuffer)
    as (_ & Hpath & _ & _ & _ & _ & Hread & _).
  split; [exact Hread|]. apply Hpath.
Defined.

(** C10 on a default of five characters and a capacity of three. *)
Lemma GetStringT_long_default_not_delivered_witness :
  2 ≤ 3 < 2 ^ 32 ∧ 3 ≤ length (stale 4) ∧
  GetOrLoadFile (EncodingTo (c_str (sz "game.ini"))) cold
  = ("game.ini"%string, game_entry, warm) ∧
  QueryValue (EncodingTo (c_str (sz "Display")))
    (EncodingTo (c_str (sz "Depth"))) (m_INI game_entry) = None ∧
  3 ≤ length (c_str (sz "32bit")) ∧
  GetStringT (Some (sz "Display")) (Some (sz "Depth")) (Some (sz "32bit"))
    (Some (stale 4)) 3 (Some (sz "game.ini")) cold
  = (0, Some [Byte.x00; Byte.x00; Byte.x00; Byte.xcc], warm).
Proof.
  assert (2 ≤ 3 < 2 ^ 32) as Hsize by run.
  assert (3 ≤ length (stale 4)) as Hbuf by run.
  assert (GetOrLoadFile (EncodingTo (c_str (sz "game.ini"))) cold
          = ("game.ini"%string, game_entry, warm)) as Hentry by reflexivity.
  assert (QueryValue (EncodingTo (c_str (sz "Display")))
            (EncodingTo (c_str (sz "Depth"))) (m_INI game_entry) = None)
    as Hmissing by reflexivity.
  assert (3 ≤ length (c_str (sz "32bit"))) as Hlong by run.
  repeat (split; [assumption|]).
  exact (proj1 (proj2 (GetStringT_long_default_not_delivered (sz "Display")
                         (sz "Depth") (sz "32bit") (stale 4) 3 (sz "game.ini")
                         cold _ _ _ Hsize Hbuf Hentry Hmissing Hlong))).
Defined.
End Runs.

(** * The further properties on the sample platform *)

Section FurtherRuns.
Import Sample.

Ltac run := vm_compute; repeat split; (reflexivity || (intros; discriminate)).

(** X1 on a source longer than the capacity: the caller reads [a]. *)
Lemma StringCopyBuffer_reads_as_source_prefix_witness :
  1 ≤ 2 ≤ length (stale 3) ∧ 0 ≤ 3 ≤ length (sz "abc") ∧
  ∃ hr copied d',
    StringCopyBuffer (Some (stale 3)) 2 (Some (sz "abc")) 3
    = (hr, copied, Some d') ∧
    c_str d' = [Byte.x61].
Proof.
  assert (1 ≤ 2 ≤ length (stale 3)) as Hdst by run.
  assert (0 ≤ 3 ≤ length (sz "abc")) as Hsrc by run.
  split; [exact Hdst|]. split; [exact Hsrc|].
  destruct (StringCopyBuffer_reads_as_source_prefix (stale 3) (sz "abc") 2 3
              Hdst Hsrc)
    as (hr & copied & d' & Hcopy & Hstr & _).
  exists hr, copied, d'. split; [exact Hcopy|].
  exact (eq_trans Hstr eq_refl).
Defined.

(** X2 on two destinations with different contents. *)
Lemma StringCopyBuffer_ignores_stale_contents_witness :
  0 ≤ 3 ≤ length (stale 4) ∧ 3 ≤ length (sz "zzzzz") ∧
  0 ≤ 2 ≤ length (sz "ab") ∧
  ∃ hr copied body,
    Z.of_nat (length body) = 3 ∧
    StringCopyBuffer (Some (stale 4)) 3 (Some (sz "ab")) 2
    = (hr, copied, Some (body ++ drop (Z.to_nat 3) (stale 4))) ∧
    StringCopyBuffer (Some (sz "zzzzz")) 3 (Some (sz "ab")) 2
    = (hr, copied, Some (body ++ drop (Z.to_nat 3) (sz "zzzzz"))).
Proof.
  assert (0 ≤ 3 ≤ length (stale 4)) as Hdst1 by run.
  assert (3 ≤ length (sz "zzzzz")) as Hdst2 by run.
  assert (0 ≤ 2 ≤ length (sz "ab")) as Hsrc by run.
  repeat (split; [assumption|]).
  exact (StringCopyBuffer_ignores_stale_contents (stale 4) (sz "zzzzz")
           (sz "ab") 3 2 Hdst1 Hdst2 Hsrc).
Defined.

(** X3 on a source that does not fit. *)
Lemma StringCopyBuffer_result_code_witness :
  0 ≤ 2 ≤ length (stale 3) ∧ 0 ≤ 3 ≤ length (sz "abc") ∧
  ∃ copied d',
    StringCopyBuffer (Some (stale 3)) 2 (Some (sz "abc")) 3
    = (STRSAFE_E_INSUFFICIENT_BUFFER, copied, Some d') ∧
    copied = 2.
Proof.
  assert (0 ≤ 2 ≤ length (stale 3)) as Hdst by run.
  assert (0 ≤ 3 ≤ length (sz "abc")) as Hsrc by run.
  split; [exact Hdst|]. split; [exact Hsrc|].
  destruct (StringCopyBuffer_result_code (stale 3) (sz "abc") 2 3 Hdst Hsrc)
    as (hr & copied & d' & Hcopy & Hcode & Hshort & Hwhole & _).
  exists copied, d'.
  destruct Hcode as [Hok|Hshortage].
  - destruct (Hwhole Hok) as (Hfit & _); [run|]. exfalso.
    exact (Hfit eq_refl).
  - split; [by rewrite Hcopy, Hshortage|]. apply (Hshort Hshortage).
Defined.

(** X4 on a string of three characters. *)
Lemma StringLength_outcome_witness :
  0 ≤ 4 ∧ 0 ≤ 3 ∧
  StringLength (Some (sz "abc")) 4 = (S_OK, 3) ∧
  StringLength (Some (sz "abc")) 3 = (STRSAFE_E_INVALID_PARAMETER, 0).
Proof.
  assert (0 ≤ 4) as Hmax4 by run. assert (0 ≤ 3) as Hmax3 by run.
  split; [exact Hmax4|]. split; [exact Hmax3|]. split.
  - exact (eq_trans (StringLength_outcome (Some (sz "abc")) 4 Hmax4) eq_refl).
  - exact (eq_trans (StringLength_outcome (Some (sz "abc")) 3 Hmax3) eq_refl).
Defined.

(** X5 on the read of [Mode] into six of eight characters. *)
Lemma GetStringT_never_overruns_witness :
  0 ≤ 6 ≤ length (stale 8) ∧
  ∃ result buffer r',
    GetStringT (Some (sz "Display")) (Some (sz "Mode")) None (Some (stale 8)) 6
      (Some (sz "game.ini")) cold
    = (result, Some buffer, r') ∧
    length buffer = length (stale 8) ∧
    drop 6 buffer = [Byte.xcc; Byte.xcc].
Proof.
  assert (0 ≤ 6 ≤ length (stale 8)) as Hbuf by run.
  split; [exact Hbuf|].
  destruct (GetStringT_never_overruns (Some (sz "Display")) (Some (sz "Mode"))
              None (Some (sz "game.ini")) (stale 8) 6 cold Hbuf)
    as (result & buffer & r' & Hcall & Hlen & Hrest & _).
  exists result, buffer, r'. split; [exact Hcall|]. split; [exact Hlen|].
  exact (eq_trans Hrest eq_refl).
Defined.

(** X6 on the block of [Display] in a capacity of 12. *)
Lemma GetSectionT_never_overruns_witness :
  0 ≤ 12 ≤ length (stale 14) ∧
  ∃ result buffer r',
    GetSectionT (Some (sz "Display")) (Some (stale 14)) 12
      (Some (sz "game.ini")) cold
    = (result, Some buffer, r') ∧
    drop 12 buffer = [Byte.xcc; Byte.xcc] ∧
    Z.of_nat (length (c_str buffer)) < 12.
Proof.
  assert (0 ≤ 12 ≤ length (stale 14)) as Hbuf by run.
  split; [exact Hbuf|].
  destruct (GetSectionT_never_overruns (Some (sz "Display"))
              (Some (sz "game.ini")) (stale 14) 12 cold Hbuf)
    as (result & buffer & r' & Hcall & _ & Hrest & _ & Hstr).
  exists result, buffer, r'. split; [exact Hcall|].
  split; [exact (eq_trans Hrest eq_refl)|].
  apply Hstr; [discriminate|discriminate|run].
Defined.

(** X7 on [Mode = full] read into a capacity of three. *)
Lemma GetStringT_returns_string_length_witness :
  2 ≤ 3 < 2 ^ 32 ∧ 3 ≤ length (stale 8) ∧
  GetOrLoadFile (EncodingTo (c_str (sz "game.ini"))) cold
  = ("game.ini"%string, game_entry, warm) ∧
  (∀ value,
     QueryValue (EncodingTo (c_str (sz "Display")))
       (EncodingTo (c_str (sz "Mode"))) (m_INI game_entry)
     = Some value →
     tnul ∉ EncodingFrom value) ∧
  ∃ buffer,
    GetStringT (Some (sz "Display")) (Some (sz "Mode")) None (Some (stale 8)) 3
      (Some (sz "game.ini")) cold
    = (Z.of_nat (length (c_str buffer)), Some buffer, warm) ∧
    c_str buffer = [Byte.x66; Byte.x75].
Proof.
  assert (2 ≤ 3 < 2 ^ 32) as Hsize by run.
  assert (3 ≤ length (stale 8)) as Hbuf by run.
  assert (GetOrLoadFile (EncodingTo (c_str (sz "game.ini"))) cold
          = ("game.ini"%string, game_entry, warm)) as Hentry by reflexivity.
  assert (∀ value,
            QueryValue (EncodingTo (c_str (sz "Display")))
              (EncodingTo (c_str (sz "Mode"))) (m_INI game_entry)
            = Some value →
            tnul ∉ EncodingFrom value) as Hfree.
  { intros value Hq. vm_compute in Hq. injection Hq as <-.
    intros Hin. vm_compute in Hin.
    repeat (apply elem_of_cons in Hin as [Hin|Hin]; [discriminate Hin|]).
    by apply elem_of_nil in Hin. }
  repeat (split; [assumption|]).
  destruct (GetStringT_returns_string_length (sz "Display") (sz "Mode") None
              (stale 8) 3 (sz "game.ini") cold _ _ _ Hsize Hbuf Hentry Hfree)
    as (buffer & Hcall & _ & Hstr).
  exists buffer. split; [exact Hcall|]. exact (eq_trans Hstr eq_refl).
Defined.

(** X8 on the keys of [Display] in a capacity that holds both. *)
Lemma GetStringT_enumeration_delivered_witness :
  (Some (sz "Display") = None ∨ @None (list Byte.byte) = None) ∧
  2 ≤ 12 < 2 ^ 32 ∧ 12 ≤ length (stale 12) ∧
  GetOrLoadFile (EncodingTo (c_str (sz "game.ini"))) cold
  = ("game.ini"%string, game_entry, warm) ∧
  CreateZSSTRZZ (λ name, Some (EncodingFrom name))
    (enumerated_names (Some (sz "Display")) (m_INI game_entry)) 12
  = ((sz "Width" ++ [Byte.x00] ++ sz "Mode" ++ [Byte.x00]) ++ [tnul],
     false, 2) ∧
  Z.of_nat (length (sz "Width" ++ [Byte.x00] ++ sz "Mode" ++ [Byte.x00])) + 1
  ≤ 12 ∧
  (GetStringT (Some (sz "Display")) None None (Some (stale 12)) 12
     (Some (sz "game.ini")) cold).1
  = (11, Some (sz "Width" ++ [Byte.x00] ++ sz "Mode" ++ [Byte.x00; Byte.x00])).
Proof.
  assert (Some (sz "Display") = None ∨ @None (list Byte.byte) = None) as Hmode
    by (by right).
  assert (2 ≤ 12 < 2 ^ 32) as Hsize by run.
  assert (12 ≤ length (stale 12)) as Hbuf by run.
  assert (GetOrLoadFile (EncodingTo (c_str (sz "game.ini"))) cold
          = ("game.ini"%string, game_entry, warm)) as Hentry by reflexivity.
  assert (CreateZSSTRZZ (λ name, Some (EncodingFrom name))
            (enumerated_names (Some (sz "Display")) (m_INI game_entry)) 12
          = ((sz "Width" ++ [Byte.x00] ++ sz "Mode" ++ [Byte.x00]) ++ [tnul],
             false, 2)) as Hlist by reflexivity.
  assert (Z.of_nat (length (sz "Width" ++ [Byte.x00] ++ sz "Mode"
                            ++ [Byte.x00])) + 1 ≤ 12) as Hfits by run.
  repeat (split; [assumption|]).
  rewrite (GetStringT_enumeration_delivered (Some (sz "Display")) None None
             (stale 12) 12 (sz "game.ini") cold _ _ _ _ _ _ Hmode Hsize Hbuf
             Hentry Hlist Hfits).
  reflexivity.
Defined.

(** X9 on the block of [Display]. *)
Lemma GetSectionT_block_delivered_witness :
  2 ≤ 24 < 2 ^ 32 ∧ 24 ≤ length (stale 24) ∧
  GetOrLoadFile (EncodingTo (c_str (sz "game.ini"))) cold
  = ("game.ini"%string, game_entry, warm) ∧
  CreateZSSTRZZ (key_value_pair (m_INI game_entry)
                   (EncodingTo (c_str (sz "Display"))))
    (GetKeyNames (EncodingTo (c_str (sz "Display"))) (m_INI game_entry)) 24
  = ((sz "Width=1920" ++ [Byte.x00] ++ sz "Mode=full" ++ [Byte.x00])
     ++ [tnul], false, 2) ∧
  Z.of_nat (length (sz "Width=1920" ++ [Byte.x00] ++ sz "Mode=full"
                    ++ [Byte.x00])) + 1 ≤ 24 ∧
  (GetSectionT (Some (sz "Display")) (Some (stale 24)) 24
     (Some (sz "game.ini")) cold).1
  = (21,
     Some (sz "Width=1920" ++ [Byte.x00] ++ sz "Mode=full"
           ++ [Byte.x00; Byte.x00; Byte.x00; Byte.x00])).
Proof.
  assert (2 ≤ 24 < 2 ^ 32) as Hsize by run.
  assert (24 ≤ length (stale 24)) as Hbuf by run.
  assert (GetOrLoadFile (EncodingTo (c_str (sz "game.ini"))) cold
          = ("game.ini"%string, game_entry, warm)) as Hentry by reflexivity.
  assert (CreateZSSTRZZ (key_value_pair (m_INI game_entry)
                           (EncodingTo (c_str (sz "Display"))))
            (GetKeyNames (EncodingTo (c_str (sz "Display")))
               (m_INI game_entry)) 24
          = ((sz "Width=1920" ++ [Byte.x00] ++ sz "Mode=full" ++ [Byte.x00])
             ++ [tnul], false, 2)) as Hblock by reflexivity.
  assert (Z.of_nat (length (sz "Width=1920" ++ [Byte.x00] ++ sz "Mode=full"
                            ++ [Byte.x00])) + 1 ≤ 24) as Hfits by run.
  repeat (split; [assumption|]).
  rewrite (GetSectionT_block_delivered (sz "Display") (stale 24) 24
             (sz "game.ini") cold _ _ _ _ _ _ Hsize Hbuf Hentry Hblock Hfits).
  reflexivity.
Defined.

(** X10 on [Width = 1920], on [Mode = full], which does not parse, and on
    a null key, with the default [-1]. *)
Lemma GetIntT_outcomes_witness :
  - 2 ^ 31 ≤ -1 < 2 ^ 31 ∧
  GetOrLoadFile (EncodingTo (c_str (sz "game.ini"))) cold
  = ("game.ini"%string, game_entry, warm) ∧
  (∀ value i,
     QueryValue (EncodingTo (c_str (sz "Display")))
       (EncodingTo (c_str (sz "Width"))) (m_INI game_entry)
     = Some value →
     ToInteger value = Some i → - 2 ^ 31 ≤ i < 2 ^ 31) ∧
  (∃ u, GetIntT (Some (sz "Display")) (Some (sz "Width")) (-1)
          (Some (sz "game.ini")) cold = (u, warm) ∧
        to_INT u = 1920) ∧
  (∃ u, GetIntT (Some (sz "Display")) None (-1) (Some (sz "game.ini")) cold
        = (u, SetLastError ERROR_INVALID_PARAMETER cold) ∧
        to_INT u = -1).
Proof.
  assert (- 2 ^ 31 ≤ -1 < 2 ^ 31) as Hdefault by run.
  assert (GetOrLoadFile (EncodingTo (c_str (sz "game.ini"))) cold
          = ("game.ini"%string, game_entry, warm)) as Hentry by reflexivity.
  assert (∀ value i,
            QueryValue (EncodingTo (c_str (sz "Display")))
              (EncodingTo (c_str (sz "Width"))) (m_INI game_entry)
            = Some value →
            ToInteger value = Some i → - 2 ^ 31 ≤ i < 2 ^ 31) as Hparse.
  { intros value i Hq Hi. vm_compute in Hq. injection Hq as <-.
    vm_compute in Hi. injection Hi as <-. run. }
  repeat (split; [assumption|]).
  destruct (GetIntT_outcomes (sz "Display") (sz "Width") (-1) (sz "game.ini")
              cold _ _ _ Hdefault Hentry Hparse)
    as (_ & Hnull & u & Hcall & Hu).
  split.
  - exists u. split; [exact Hcall|]. exact (eq_trans Hu eq_refl).
  - apply Hnull. by right.
Defined.

(** X11 on a read of [Mode] with save-on-write: no event, the disk as it
    was. *)
Lemma read_handlers_leave_redirector_witness :
  m_Events
    (GetStringT (Some (sz "Display")) (Some (sz "Mode")) None (Some (stale 8)) 8
       (Some (sz "game.ini")) cold).2
  = m_Events cold ∧
  m_Disk
    (GetStringT (Some (sz "Display")) (Some (sz "Mode")) None (Some (stale 8)) 8
       (Some (sz "game.ini")) cold).2
  = m_Disk cold.
Proof.
  destruct (read_handlers_leave_redirector (Some (sz "Display"))
              (Some (sz "Mode")) None (Some (stale 8)) 0 8 (sz "game.ini")
              cold)
    as (Hread & _ & _ & Hmeans).
  destruct (Hmeans _ Hread) as (Hevents & Hdisk & _).
  split; [exact Hevents|exact Hdisk].
Defined.

(** X12 on the deletion of [Depth], which [game.ini] does not have. *)
Lemma WriteStringToMemoryFile_failures_witness :
  GetOrLoadFile (EncodingTo (c_str (sz "game.ini"))) cold
  = ("game.ini"%string, game_entry, warm) ∧
  (DeleteKey (EncodingTo (c_str (sz "Display")))
     (EncodingTo (c_str (sz "Depth"))) (m_INI game_entry)).1 = false ∧
  ∃ o1 r1,
    WriteStringToMemoryFile (Some (sz "Display")) (Some (sz "Depth")) None
      (Some (sz "game.ini")) cold
    = (false, r1) ∧
    m_INIMap r1 !! "game.ini"%string = Some o1 ∧
    m_IsChanged o1 = false ∧ m_Events r1 = [] ∧ m_Disk r1 = disk.
Proof.
  assert (GetOrLoadFile (EncodingTo (c_str (sz "game.ini"))) cold
          = ("game.ini"%string, game_entry, warm)) as Hentry by reflexivity.
  assert ((DeleteKey (EncodingTo (c_str (sz "Display")))
             (EncodingTo (c_str (sz "Depth"))) (m_INI game_entry)).1 = false)
    as Hfailed by reflexivity.
  split; [exact Hentry|]. split; [exact Hfailed|].
  destruct (WriteStringToMemoryFile_failures (sz "Display")
              (Some (sz "Depth")) None (sz "game.ini") cold _ _ _ Hentry
              Hfailed)
    as (_ & o1 & r1 & Hcall & Ho1 & Hdirty & Hevents & Hdisk & _).
  exists o1, r1. split; [exact Hcall|]. split; [exact Ho1|].
  split; [exact Hdirty|]. split; [exact Hevents|exact Hdisk].
Defined.

(** X13 on a source longer than the capacity. *)
Lemma StringLength_after_StringCopyBuffer_witness :
  1 ≤ 2 ≤ length (stale 3) ∧ 2 ≤ STRSAFE_MAX_CCH ∧
  0 ≤ 3 ≤ length (sz "abc") ∧
  ∃ hr copied d',
    StringCopyBuffer (Some (stale 3)) 2 (Some (sz "abc")) 3
    = (hr, copied, Some d') ∧
    StringLength (Some d') 2 = (S_OK, Z.of_nat (length (c_str d'))).
Proof.
  assert (1 ≤ 2 ≤ length (stale 3)) as Hdst by run.
  assert (2 ≤ STRSAFE_MAX_CCH) as Hmax by run.
  assert (0 ≤ 3 ≤ length (sz "abc")) as Hsrc by run.
  repeat (split; [assumption|]).
  destruct (StringLength_after_StringCopyBuffer (stale 3) (sz "abc") 2 3
              Hdst Hmax Hsrc)
    as (hr & copied & d' & Hcopy & Hmeasure & _).
  exists hr, copied, d'. split; [exact Hcopy|exact Hmeasure].
Defined.
End FurtherRuns.
